(** * shareable-notes-backend: the AI proxy and its response normalisation

    A shallow embedding of [src/aiService.js] and of the [/api/ai] route of
    [src/server.js].  JavaScript strings are sequences of UTF-16 code units,
    JavaScript values are the values [JSON.parse] can build plus [undefined],
    and the asynchronous functions are programs over three kinds of event:
    the upstream [axios.post], a line on the console, and a read of the
    clock. *)

From Stdlib Require Import List NArith ZArith Bool Lia String Ascii.
Import ListNotations.
Local Open Scope N_scope.
Local Set Warnings "-register-all".

(** ** JavaScript strings *)

(** A string is its sequence of UTF-16 code units. *)
Definition jsstring : Type := list N.

(** The code units of an ASCII literal. *)
Definition lit (s : string) : jsstring :=
  map N_of_ascii (list_ascii_of_string s).

(** [qlit s] is [lit s] with every apostrophe read as a quotation mark, to
    write JSON texts down. *)
Definition qlit (s : string) : jsstring :=
  map (fun c => if c =? 39 then 34 else c) (lit s).

Definition LF : N := 10.
Definition COMMA : N := 44.

Fixpoint str_eqb (a b : jsstring) : bool :=
  match a, b with
  | [], [] => true
  | x :: a', y :: b' => (x =? y) && str_eqb a' b'
  | _, _ => false
  end.

(** [s.length] *)
Definition str_length (s : jsstring) : nat := List.length s.

(** [s.startsWith(p)] *)
Fixpoint starts_with (p s : jsstring) : bool :=
  match p, s with
  | [], _ => true
  | x :: p', y :: s' => (x =? y) && starts_with p' s'
  | _ :: _, [] => false
  end.

(** [s.length > 0] *)
Definition non_empty (s : jsstring) : bool :=
  match s with [] => false | _ :: _ => true end.

(** [s.split(sep)] for a separator of one code unit: the pieces between the
    separators, in order; a string without separator is its own single piece,
    the empty string included. *)
Fixpoint split (sep : N) (s : jsstring) : list jsstring :=
  match s with
  | [] => [[]]
  | c :: rest =>
      if c =? sep then [] :: split sep rest
      else match split sep rest with
           | piece :: pieces => (c :: piece) :: pieces
           | [] => [[c]]
           end
  end.

(** [pieces.join(sep)] *)
Fixpoint join (sep : N) (pieces : list jsstring) : jsstring :=
  match pieces with
  | [] => []
  | [piece] => piece
  | piece :: more => piece ++ sep :: join sep more
  end.

(** ECMAScript [WhiteSpace] and [LineTerminator] code points, the ones
    [String.prototype.trim] removes: TAB, LF, VT, FF, CR, SP, NBSP, the
    Unicode space separators, LS, PS and the byte order mark. *)
Definition is_white_space (c : N) : bool :=
  ((9 <=? c) && (c <=? 13)) || (c =? 32) || (c =? 160) || (c =? 5760)
  || ((8192 <=? c) && (c <=? 8202)) || (c =? 8232) || (c =? 8233)
  || (c =? 8239) || (c =? 8287) || (c =? 12288) || (c =? 65279).

Fixpoint trim_start (s : jsstring) : jsstring :=
  match s with
  | [] => []
  | c :: rest => if is_white_space c then trim_start rest else s
  end.

Definition trim_end (s : jsstring) : jsstring := rev (trim_start (rev s)).

(** [s.trim()] *)
Definition trim (s : jsstring) : jsstring := trim_end (trim_start s).

(** [s.replace(re, '')] for a global regular expression [re] that never
    matches the empty string: [match_length s] is the length of the match
    of [re] at the start of [s], if there is one.  The scan goes left to
    right; a match is dropped and the scan resumes after it. *)
Fixpoint remove_matches_from (match_length : jsstring -> option nat)
    (skip : nat) (s : jsstring) : jsstring :=
  match s with
  | [] => []
  | c :: rest =>
      match skip with
      | S k => remove_matches_from match_length k rest
      | O =>
          match match_length s with
          | Some (S k) => remove_matches_from match_length k rest
          | _ => c :: remove_matches_from match_length 0 rest
          end
      end
  end.

Definition remove_matches (match_length : jsstring -> option nat)
    (s : jsstring) : jsstring :=
  remove_matches_from match_length 0 s.

(** The regular expression [p\n?] for a literal [p]: [p], then a line feed
    when one follows. *)
Definition literal_then_optional_LF (p : jsstring) (s : jsstring) : option nat :=
  if starts_with p s then
    match skipn (List.length p) s with
    | c :: _ => if c =? LF then Some (S (List.length p)) else Some (List.length p)
    | [] => Some (List.length p)
    end
  else None.

(** [/```json\n?/g] and [/```\n?/g] *)
Definition fence_json_re : jsstring -> option nat :=
  literal_then_optional_LF (lit "```json").
Definition fence_re : jsstring -> option nat :=
  literal_then_optional_LF (lit "```").

(** ** JavaScript values *)

(** A number is kept as the decimal literal it was written with:
    [(-1)^negative * digits * 10^exponent].  The engine rounds it to a
    double; the program only asks whether that double is zero and whether
    it exceeds 50000, and both questions are answered exactly below. *)
Record number : Type := { negative : bool; digits : N; exponent : Z }.

Definition number_of_nat (n : nat) : number :=
  {| negative := false; digits := N.of_nat n; exponent := 0 |}.

(** The values [JSON.parse] builds, and [undefined].  An object is the list
    of its own properties in creation order. *)
Inductive value : Type :=
| VUndefined
| VNull
| VBool (b : bool)
| VNumber (n : number)
| VString (s : jsstring)
| VArray (items : list value)
| VObject (props : list (jsstring * value)).

(** What the program can catch. *)
Inductive type_error : Type :=
| CannotReadProperty (receiver : value) (key : jsstring)
| NotAFunction (receiver : value) (method : jsstring)
| CannotConvertToPrimitive.

Inductive exn : Type :=
| TypeError (why : type_error)
| SyntaxError (text : jsstring)
| Error (message : jsstring)
| AxiosError (message : jsstring) (response : option value).

(** A computation that returns or throws. *)
Definition result (A : Type) : Type := (exn + A)%type.

(** The double nearest to [d * 10^e] is zero exactly when
    [d * 10^e <= 2^-1075], half of the least positive double, the tie
    rounding to the even neighbour, which is zero. *)
Definition number_is_zero (n : number) : bool :=
  if digits n =? 0 then true
  else if (0 <=? exponent n)%Z then false
  else (Z.of_N (digits n) * 2 ^ 1075 <=? 10 ^ (- exponent n))%Z.

(** The double nearest to [d * 10^e] exceeds 50000 exactly when
    [d * 10^e > 50000 + 2^-38]: the doubles next to 50000 are [2^-37] apart
    and 50000 is the even neighbour of the midpoint. *)
Definition number_exceeds_50000 (n : number) : bool :=
  if negative n then false
  else if (0 <=? exponent n)%Z
       then (50000 <? Z.of_N (digits n) * 10 ^ exponent n)%Z
       else ((50000 * 2 ^ 38 + 1) * 10 ^ (- exponent n)
               <? Z.of_N (digits n) * 2 ^ 38)%Z.

(** [ToBoolean]: what [!v], [a && b] and [a || b] test. *)
Definition ToBoolean (v : value) : bool :=
  match v with
  | VUndefined | VNull => false
  | VBool b => b
  | VNumber n => negb (number_is_zero n)
  | VString s => match s with [] => false | _ :: _ => true end
  | VArray _ | VObject _ => true
  end.

(** [a || b] *)
Definition js_or (a b : value) : value := if ToBoolean a then a else b.

(** [a && b] *)
Definition js_and (a b : value) : value := if ToBoolean a then b else a.

(** [a === b] against a string constant, as the [switch] of the route
    compares: only an equal string is strictly equal to a string. *)
Definition strict_equals_string (a : value) (b : jsstring) : bool :=
  match a with
  | VString s => str_eqb s b
  | _ => false
  end.

(** The own property [key] of an object. *)
Fixpoint lookup (key : jsstring) (props : list (jsstring * value)) : option value :=
  match props with
  | [] => None
  | (k, v) :: more => if str_eqb k key then Some v else lookup key more
  end.

Definition has_own (key : jsstring) (props : list (jsstring * value)) : bool :=
  match lookup key props with Some _ => true | None => false end.

(** [CreateDataProperty]: a repeated key keeps its place and takes the
    new value. *)
Fixpoint define (key : jsstring) (v : value) (props : list (jsstring * value))
  : list (jsstring * value) :=
  match props with
  | [] => [(key, v)]
  | (k, old) :: more =>
      if str_eqb k key then (k, v) :: more else (k, old) :: define key v more
  end.

(** The array index a property key denotes: a decimal numeral without
    leading zero. *)
Definition is_digit (c : N) : bool := (48 <=? c) && (c <=? 57).

Fixpoint decimal (acc : N) (s : jsstring) : option N :=
  match s with
  | [] => Some acc
  | c :: rest => if is_digit c then decimal (10 * acc + (c - 48)) rest else None
  end.

Definition array_index (key : jsstring) : option nat :=
  match key with
  | [] => None
  | [c] => if is_digit c then Some (N.to_nat (c - 48)) else None
  | c :: _ =>
      if c =? 48 then None
      else match decimal 0 key with Some n => Some (N.to_nat n) | None => None end
  end.

(** [v.key] and [v[key]] on a value other than [undefined] and [null], for
    the keys this program reads ([choices], [0], [message], [content],
    [error], [term], [definition], [correction], [length]): own properties,
    and the [length] and the indices of strings and arrays.  None of these
    keys is inherited from a built-in prototype otherwise, so a key that is
    not found reads as [undefined]. *)
Definition property (v : value) (key : jsstring) : value :=
  match v with
  | VUndefined | VNull | VBool _ | VNumber _ => VUndefined
  | VString s =>
      if str_eqb key (lit "length") then VNumber (number_of_nat (str_length s))
      else match array_index key with
           | Some i => match nth_error s i with
                       | Some c => VString [c]
                       | None => VUndefined
                       end
           | None => VUndefined
           end
  | VArray items =>
      if str_eqb key (lit "length") then VNumber (number_of_nat (List.length items))
      else match array_index key with
           | Some i => match nth_error items i with
                       | Some item => item
                       | None => VUndefined
                       end
           | None => VUndefined
           end
  | VObject props =>
      match lookup key props with
      | Some x => x
      | None => VUndefined
      end
  end.

(** [v.key]: reading a property of [undefined] or [null] throws. *)
Definition Get (v : value) (key : jsstring) : result value :=
  match v with
  | VUndefined | VNull => inl (TypeError (CannotReadProperty v key))
  | _ => inr (property v key)
  end.

(** [v?.key] *)
Definition GetOptional (v : value) (key : jsstring) : value :=
  match v with
  | VUndefined | VNull => VUndefined
  | _ => property v key
  end.

(** What the JavaScript engine fixes and this program does not: the decimal
    text of a number, the numeric reading of a string compared with 50000,
    and the messages of the built-in errors. *)
Class Engine : Type := {
  number_to_string : number -> jsstring;
  string_exceeds_50000 : jsstring -> bool;
  type_error_message : type_error -> jsstring;
  syntax_error_message : jsstring -> jsstring
}.

(** [ToString], the conversion of template literals and of [new Error(m)].
    An array joins its elements with commas, [null] and [undefined] elements
    counting as empty; an object is ["[object Object]"], unless it has an own
    [toString] property: parsed data is never callable, and the conversion
    throws. *)
Fixpoint ToString `{Engine} (v : value) : result jsstring :=
  match v with
  | VUndefined => inr (lit "undefined")
  | VNull => inr (lit "null")
  | VBool b => inr (if b then lit "true" else lit "false")
  | VNumber n => inr (number_to_string n)
  | VString s => inr s
  | VArray items =>
      (fix join_items (items : list value) : result jsstring :=
         match items with
         | [] => inr []
         | item :: more =>
             match (match item with
                    | VUndefined | VNull => inr []
                    | _ => ToString item
                    end) with
             | inl e => inl e
             | inr s =>
                 match more with
                 | [] => inr s
                 | _ :: _ =>
                     match join_items more with
                     | inl e => inl e
                     | inr t => inr (s ++ COMMA :: t)
                     end
                 end
             end
         end) items
  | VObject props =>
      if has_own (lit "toString") props
      then inl (TypeError CannotConvertToPrimitive)
      else inr (lit "[object Object]")
  end.

(** [v > 50000]: the operand is converted to a number; [undefined] is [NaN],
    [null] and booleans are 0 or 1, an array or object goes through its
    string. *)
Definition exceeds_50000 `{Engine} (v : value) : result bool :=
  match v with
  | VUndefined | VNull | VBool _ => inr false
  | VNumber n => inr (number_exceeds_50000 n)
  | VString s => inr (string_exceeds_50000 s)
  | VArray _ | VObject _ =>
      match ToString v with
      | inl e => inl e
      | inr s => inr (string_exceeds_50000 s)
      end
  end.

(** [error.message] *)
Definition exn_message `{Engine} (e : exn) : jsstring :=
  match e with
  | TypeError why => type_error_message why
  | SyntaxError text => syntax_error_message text
  | Error message => message
  | AxiosError message _ => message
  end.

(** [error.response?.data] *)
Definition exn_response_data (e : exn) : value :=
  match e with
  | AxiosError _ (Some data) => data
  | _ => VUndefined
  end.

(** ** [JSON.parse]

    The JSON grammar of ECMA-404, as [JSON.parse] reads it: a value between
    optional white space (TAB, LF, CR, SP), nothing after it. *)
Module JSON.

Inductive parsed (A : Type) : Type :=
| Parsed (a : A) (rest : jsstring)
| Invalid
| OutOfFuel.
Arguments Parsed {A} a rest.
Arguments Invalid {A}.
Arguments OutOfFuel {A}.

Definition is_ws (c : N) : bool :=
  (c =? 9) || (c =? 10) || (c =? 13) || (c =? 32).

Fixpoint skip_ws (s : jsstring) : jsstring :=
  match s with
  | [] => []
  | c :: rest => if is_ws c then skip_ws rest else s
  end.

Definition hex_digit (c : N) : option N :=
  if is_digit c then Some (c - 48)
  else if (65 <=? c) && (c <=? 70) then Some (c - 55)
  else if (97 <=? c) && (c <=? 102) then Some (c - 87)
  else None.

(** The character an escape letter stands for: quotation mark, reverse
    solidus, solidus, b, f, n, r, t. *)
Definition escape (c : N) : option N :=
  if c =? 34 then Some 34
  else if c =? 92 then Some 92
  else if c =? 47 then Some 47
  else if c =? 98 then Some 8
  else if c =? 102 then Some 12
  else if c =? 110 then Some 10
  else if c =? 114 then Some 13
  else if c =? 116 then Some 9
  else None.

Definition prepend (c : N) (r : option (jsstring * jsstring))
  : option (jsstring * jsstring) :=
  match r with
  | Some (str, rest) => Some (c :: str, rest)
  | None => None
  end.

(** A string after its opening quotation mark: up to the closing one, with
    escapes decoded; control characters below U+0020 are not allowed. *)
Fixpoint string_body (s : jsstring) : option (jsstring * jsstring) :=
  match s with
  | [] => None
  | c :: rest =>
      if c =? 34 then Some ([], rest)
      else if c =? 92 then
        match rest with
        | [] => None
        | e :: rest1 =>
            if e =? 117 then
              match rest1 with
              | h1 :: h2 :: h3 :: h4 :: rest2 =>
                  match hex_digit h1, hex_digit h2, hex_digit h3, hex_digit h4 with
                  | Some a, Some b, Some c, Some d =>
                      prepend (4096 * a + 256 * b + 16 * c + d) (string_body rest2)
                  | _, _, _, _ => None
                  end
              | _ => None
              end
            else
              match escape e with
              | Some u => prepend u (string_body rest1)
              | None => None
              end
        end
      else if c <? 32 then None
      else prepend c (string_body rest)
  end.

Fixpoint take_digits (s : jsstring) : jsstring * jsstring :=
  match s with
  | [] => ([], [])
  | c :: rest =>
      if is_digit c
      then let (ds, r) := take_digits rest in (c :: ds, r)
      else ([], s)
  end.

Definition digits_value (ds : jsstring) : N :=
  fold_left (fun acc c => 10 * acc + (c - 48)) ds 0.

(** [0], or a non-zero digit and more digits. *)
Definition int_part (s : jsstring) : option (jsstring * jsstring) :=
  match s with
  | [] => None
  | c :: rest =>
      if c =? 48 then Some ([c], rest)
      else if is_digit c
           then let (ds, r) := take_digits rest in Some (c :: ds, r)
           else None
  end.

(** An optional [.] and at least one digit. *)
Definition frac_part (s : jsstring) : option (jsstring * jsstring) :=
  match s with
  | [] => Some ([], [])
  | c :: rest =>
      if c =? 46 then
        match take_digits rest with
        | ([], _) => None
        | (ds, r) => Some (ds, r)
        end
      else Some ([], s)
  end.

(** An optional [e] or [E], an optional sign and at least one digit. *)
Definition exp_part (s : jsstring) : option (Z * jsstring) :=
  match s with
  | [] => Some (0%Z, [])
  | c :: rest =>
      if (c =? 101) || (c =? 69) then
        let (minus, rest1) :=
          match rest with
          | sign :: r =>
              if sign =? 45 then (true, r)
              else if sign =? 43 then (false, r)
              else (false, rest)
          | [] => (false, rest)
          end in
        match take_digits rest1 with
        | ([], _) => None
        | (ds, r) =>
            Some (if minus then (- Z.of_N (digits_value ds))%Z
                  else Z.of_N (digits_value ds), r)
        end
      else Some (0%Z, s)
  end.

Definition number_literal (s : jsstring) : option (number * jsstring) :=
  let (minus, s1) :=
    match s with
    | c :: rest => if c =? 45 then (true, rest) else (false, s)
    | [] => (false, s)
    end in
  match int_part s1 with
  | None => None
  | Some (int, s2) =>
      match frac_part s2 with
      | None => None
      | Some (frac, s3) =>
          match exp_part s3 with
          | None => None
          | Some (e, s4) =>
              Some ({| negative := minus;
                       digits := digits_value (int ++ frac);
                       exponent := (e - Z.of_nat (List.length frac))%Z |}, s4)
          end
      end
  end.

(** A value at the head of [s]; [elements] reads the rest of an array from
    its next element on, [members] the rest of an object from its next key
    on.  Each call on a non-empty construct consumes input, so the fuel
    [parse] gives never runs out ([JSON_fuel_suffices]). *)
Fixpoint value_at (fuel : nat) (s : jsstring) : parsed value :=
  match fuel with
  | O => OutOfFuel
  | S fuel =>
      match s with
      | [] => Invalid
      | c :: rest =>
          if c =? 91 then
            match skip_ws rest with
            | [] => Invalid
            | c' :: rest' =>
                if c' =? 93 then Parsed (VArray []) rest'
                else elements fuel (skip_ws rest) []
            end
          else if c =? 123 then
            match skip_ws rest with
            | [] => Invalid
            | c' :: rest' =>
                if c' =? 125 then Parsed (VObject []) rest'
                else members fuel (skip_ws rest) []
            end
          else if c =? 34 then
            match string_body rest with
            | Some (str, rest') => Parsed (VString str) rest'
            | None => Invalid
            end
          else if starts_with (lit "true") s then Parsed (VBool true) (skipn 4 s)
          else if starts_with (lit "false") s then Parsed (VBool false) (skipn 5 s)
          else if starts_with (lit "null") s then Parsed VNull (skipn 4 s)
          else
            match number_literal s with
            | Some (n, rest') => Parsed (VNumber n) rest'
            | None => Invalid
            end
      end
  end
with elements (fuel : nat) (s : jsstring) (acc : list value) : parsed value :=
  match fuel with
  | O => OutOfFuel
  | S fuel =>
      match value_at fuel s with
      | Parsed v rest =>
          match skip_ws rest with
          | [] => Invalid
          | c :: rest' =>
              if c =? 44 then elements fuel (skip_ws rest') (v :: acc)
              else if c =? 93 then Parsed (VArray (rev (v :: acc))) rest'
              else Invalid
          end
      | Invalid => Invalid
      | OutOfFuel => OutOfFuel
      end
  end
with members (fuel : nat) (s : jsstring) (acc : list (jsstring * value))
  : parsed value :=
  match fuel with
  | O => OutOfFuel
  | S fuel =>
      match s with
      | [] => Invalid
      | c :: rest =>
          if c =? 34 then
            match string_body rest with
            | None => Invalid
            | Some (key, rest1) =>
                match skip_ws rest1 with
                | [] => Invalid
                | c1 :: rest2 =>
                    if c1 =? 58 then
                      match value_at fuel (skip_ws rest2) with
                      | Parsed v rest3 =>
                          match skip_ws rest3 with
                          | [] => Invalid
                          | c2 :: rest4 =>
                              if c2 =? 44
                              then members fuel (skip_ws rest4) (define key v acc)
                              else if c2 =? 125
                                   then Parsed (VObject (define key v acc)) rest4
                                   else Invalid
                          end
                      | Invalid => Invalid
                      | OutOfFuel => OutOfFuel
                      end
                    else Invalid
                end
            end
          else Invalid
      end
  end.

Definition fuel_for (text : jsstring) : nat := 2 * List.length text + 1.

(** [JSON.parse(text)]: the value, or a [SyntaxError]. *)
Definition parse (text : jsstring) : result value :=
  match value_at (fuel_for text) (skip_ws text) with
  | Parsed v rest =>
      match skip_ws rest with
      | [] => inr v
      | _ :: _ => inl (SyntaxError text)
      end
  | Invalid | OutOfFuel => inl (SyntaxError text)
  end.

End JSON.

(** ** Programs

    An asynchronous function is the tree of the events it awaits or emits.
    There is no event for a retry, a timer or shared state: the source has
    none. *)

(** [axios.post(url, data, { headers })] *)
Record axios_request : Type := {
  url : jsstring;
  data : value;
  headers : list (jsstring * jsstring)
}.

(** How the promise of [axios.post] settles: fulfilled with a response, of
    which the program reads [response.data], or rejected. *)
Inductive settled : Type :=
| Fulfilled (response_data : value)
| Rejected (error : exn).

Inductive stream : Type := Stdout | Stderr.

Inductive Prog (A : Type) : Type :=
| Return (a : A)
| Throw (e : exn)
| AxiosPost (request : axios_request) (k : settled -> Prog A)
| Console (to : stream) (args : list value) (k : Prog A)
| DateNow (k : jsstring -> Prog A).
Arguments Return {A} a.
Arguments Throw {A} e.
Arguments AxiosPost {A} request k.
Arguments Console {A} to args k.
Arguments DateNow {A} k.

Fixpoint bind {A B : Type} (m : Prog A) (f : A -> Prog B) : Prog B :=
  match m with
  | Return a => f a
  | Throw e => Throw e
  | AxiosPost request k => AxiosPost request (fun s => bind (k s) f)
  | Console to args k => Console to args (bind k f)
  | DateNow k => DateNow (fun now => bind (k now) f)
  end.

(** [try { m } catch (error) { handler }] *)
Fixpoint try_catch {A : Type} (m : Prog A) (handler : exn -> Prog A) : Prog A :=
  match m with
  | Return a => Return a
  | Throw e => handler e
  | AxiosPost request k => AxiosPost request (fun s => try_catch (k s) handler)
  | Console to args k => Console to args (try_catch k handler)
  | DateNow k => DateNow (fun now => try_catch (k now) handler)
  end.

Definition lift {A : Type} (r : result A) : Prog A :=
  match r with
  | inl e => Throw e
  | inr a => Return a
  end.

Declare Scope prog_scope.
Delimit Scope prog_scope with prog.
Bind Scope prog_scope with Prog.
Notation "x <- m ;; k" := (bind m (fun x => k))
  (at level 61, m at next level, right associativity) : prog_scope.
Notation "m ;; k" := (bind m (fun _ => k))
  (at level 61, right associativity) : prog_scope.
Local Open Scope prog_scope.

(** [await axios.post(...)] *)
Definition axios_post (request : axios_request) : Prog value :=
  AxiosPost request (fun s =>
    match s with
    | Fulfilled response_data => Return response_data
    | Rejected error => Throw error
    end).

Definition console_log (args : list value) : Prog unit :=
  Console Stdout args (Return tt).

Definition console_error (args : list value) : Prog unit :=
  Console Stderr args (Return tt).

(** [new Date().toISOString()] *)
Definition now_ISO : Prog jsstring := DateNow (fun now => Return now).

(** The world a program runs in: how the upstream service settles the
    n-th request, and what the clock shows at its n-th reading. *)
Record world : Type := {
  upstream : nat -> axios_request -> settled;
  clock : nat -> jsstring
}.

(** What a run has done so far. *)
Record history : Type := {
  requests : list axios_request;
  console : list (stream * list value);
  clock_reads : nat
}.

Definition quiet : history :=
  {| requests := []; console := []; clock_reads := 0 |}.

Fixpoint run {A : Type} (w : world) (h : history) (m : Prog A)
  : result A * history :=
  match m with
  | Return a => (inr a, h)
  | Throw e => (inl e, h)
  | AxiosPost request k =>
      run w {| requests := requests h ++ [request];
               console := console h;
               clock_reads := clock_reads h |}
          (k (upstream w (List.length (requests h)) request))
  | Console to args k =>
      run w {| requests := requests h;
               console := console h ++ [(to, args)];
               clock_reads := clock_reads h |} k
  | DateNow k =>
      run w {| requests := requests h;
               console := console h;
               clock_reads := S (clock_reads h) |}
          (k (clock w (clock_reads h)))
  end.

(** The upstream requests a run adds to those made before it. *)
Definition upstream_calls {A : Type} (w : world) (h : history) (m : Prog A) : nat :=
  List.length (requests (snd (run w h m))) - List.length (requests h).

(** ** [src/aiService.js] *)

Section AiService.
Context `{Engine}.

Definition GROQ_API_URL : jsstring :=
  lit "https://api.groq.com/openai/v1/chat/completions".
Definition MODEL : jsstring := lit "llama-3.1-8b-instant".

(** A template literal over several lines. *)
Definition lines (ls : list jsstring) : jsstring := join LF ls.

(** The arguments of the one [axios.post] of [callGroqAPI]. *)
Definition chat_request (systemPrompt : jsstring) (userContent : value)
    (apiKey : jsstring) : axios_request :=
  {| url := GROQ_API_URL;
     data := VObject
       [ (lit "model", VString MODEL);
         (lit "messages", VArray
            [ VObject [ (lit "role", VString (lit "system"));
                        (lit "content", VString systemPrompt) ];
              VObject [ (lit "role", VString (lit "user"));
                        (lit "content", userContent) ] ]);
         (lit "temperature",
            VNumber {| negative := false; digits := 7; exponent := -1 |});
         (lit "max_tokens", VNumber (number_of_nat 1024));
         (lit "top_p", VNumber (number_of_nat 1));
         (lit "stream", VBool false) ];
     headers :=
       [ (lit "Authorization", lit "Bearer " ++ apiKey);
         (lit "Content-Type", lit "application/json") ] |}.

(** [response.data.choices[0].message.content] *)
Definition first_choice_content (response_data : value) : result value :=
  match Get response_data (lit "choices") with
  | inl e => inl e
  | inr choices =>
      match Get choices (lit "0") with
      | inl e => inl e
      | inr choice =>
          match Get choice (lit "message") with
          | inl e => inl e
          | inr message => Get message (lit "content")
          end
      end
  end.

(** [error.response?.data?.error?.message] *)
Definition upstream_error_message (error : exn) : value :=
  GetOptional (GetOptional (exn_response_data error) (lit "error"))
              (lit "message").

Definition callGroqAPI (systemPrompt : jsstring) (userContent : value)
    (apiKey : jsstring) : Prog value :=
  try_catch
    (response_data <- axios_post (chat_request systemPrompt userContent apiKey) ;;
     lift (first_choice_content response_data))
    (fun error =>
       console_error [ VString (lit "Groq API Error:");
                       js_or (exn_response_data error)
                             (VString (exn_message error)) ] ;;
       text <- lift (ToString (js_or (upstream_error_message error)
                                     (VString (lit "AI service error")))) ;;
       Throw (Error text)).

Definition summarize_prompt : jsstring :=
  lines [ lit "You are a helpful assistant that creates concise summaries. ";
          lit "Summarize the given text in 1-2 sentences. Be clear and capture the main points." ].

Definition summarizeText (content : value) (apiKey : jsstring) : Prog value :=
  response <- callGroqAPI summarize_prompt content apiKey ;;
  Return response.

Definition tags_prompt : jsstring :=
  lines [ lit "You are a helpful assistant that suggests relevant tags for notes.";
          lit "Analyze the content and suggest 5 relevant, concise tags (single words or short phrases).";
          lit "Return ONLY a comma-separated list of tags, nothing else.";
          lit "Example output: productivity, meeting, project, deadline, team" ].

(** The receiver of a string method: calling [split] or [replace] on
    anything but a string throws. *)
Definition string_receiver (v : value) (method : jsstring) : result jsstring :=
  match v with
  | VString s => inr s
  | VUndefined | VNull => inl (TypeError (CannotReadProperty v method))
  | _ => inl (TypeError (NotAFunction v method))
  end.

(** [.split(',').map(tag => tag.trim()).filter(tag => tag.length > 0).slice(0, 5)] *)
Definition parse_tags (response : jsstring) : list jsstring :=
  firstn 5
    (filter (fun tag => (0 <? str_length tag)%nat)
       (map (fun tag => trim tag) (split COMMA response))).

(** What [suggestTags] does with the completion. *)
Definition suggestTags_normalize (response : value) : Prog value :=
  text <- lift (string_receiver response (lit "split")) ;;
  Return (VArray (map VString (parse_tags text))).

Definition suggestTags (content : value) (apiKey : jsstring) : Prog value :=
  response <- callGroqAPI tags_prompt content apiKey ;;
  suggestTags_normalize response.

Definition grammar_prompt : jsstring :=
  lines [ lit "You are a grammar and spelling expert.";
          lit "Fix any grammar, spelling, or punctuation errors in the given text.";
          lit "Preserve the original meaning and style as much as possible.";
          lit "If the text is already correct, return it unchanged.";
          lit "Return ONLY the corrected text, no explanations." ].

Definition checkGrammar (content : value) (apiKey : jsstring) : Prog value :=
  response <- callGroqAPI grammar_prompt content apiKey ;;
  Return response.

Definition glossary_prompt : jsstring :=
  lines [ lit "You are a helpful assistant that identifies key technical or important terms in text.";
          lit "Analyze the content and identify up to 5 key terms that would benefit from definitions.";
          lit "Return your response as a valid JSON array with this exact format:";
          qlit "[{'term': 'example term', 'definition': 'brief definition'}]";
          lit "";
          lit "Rules:";
          lit "- Return ONLY valid JSON, nothing else";
          lit "- Include 3-5 terms maximum";
          lit "- Keep definitions concise (under 20 words)";
          lit "- Focus on technical, domain-specific, or uncommon terms" ].

(** [.replace(/```json\n?/g, '').replace(/```\n?/g, '').trim()] *)
Definition clean_response (response : jsstring) : jsstring :=
  trim (remove_matches fence_re (remove_matches fence_json_re response)).

(** [items.every(callback)]: in order, until a callback result is falsy;
    a callback that throws ends the walk. *)
Fixpoint every (callback : value -> result value) (items : list value)
  : result bool :=
  match items with
  | [] => inr true
  | item :: more =>
      match callback item with
      | inl e => inl e
      | inr v => if ToBoolean v then every callback more else inr false
      end
  end.

(** [items.filter(callback)]: every item is visited; a callback that throws
    ends the walk. *)
Fixpoint filter_items (callback : value -> result value) (items : list value)
  : result (list value) :=
  match items with
  | [] => inr []
  | item :: more =>
      match callback item with
      | inl e => inl e
      | inr v =>
          match filter_items callback more with
          | inl e => inl e
          | inr kept => inr (if ToBoolean v then item :: kept else kept)
          end
      end
  end.

(** [item => item.a && item.b] *)
Definition both_fields (a b : jsstring) (item : value) : result value :=
  match Get item a with
  | inl e => inl e
  | inr x => if ToBoolean x then Get item b else inr x
  end.

(** What [generateGlossary] does with the completion. *)
Definition generateGlossary_normalize (response : value) : Prog value :=
  try_catch
    (text <- lift (string_receiver response (lit "replace")) ;;
     glossary <- lift (JSON.parse (clean_response text)) ;;
     valid <- lift (match glossary with
                    | VArray items =>
                        every (both_fields (lit "term") (lit "definition")) items
                    | _ => inr false
                    end) ;;
     if valid : bool then Return glossary
     else Throw (Error (lit "Invalid glossary format")))
    (fun error =>
       console_error [ VString (lit "Failed to parse glossary:"); response ] ;;
       Return (VArray [])).

Definition generateGlossary (content : value) (apiKey : jsstring) : Prog value :=
  response <- callGroqAPI glossary_prompt content apiKey ;;
  generateGlossary_normalize response.

Definition grammar_errors_prompt : jsstring :=
  lines [ lit "You are a grammar expert. Analyze the text and find grammar/spelling errors.";
          qlit "Return a JSON array of error objects. Each object must have 'error' (the mistake) and 'correction' (the fix).";
          qlit "Example: [{'error': 'your wrong', 'correction': 'you" ++ lit "'"
            ++ qlit "re wrong'}, {'error': 'its good', 'correction': 'it" ++ lit "'"
            ++ qlit "s good'}]";
          lit "If no errors found, return an empty array: []";
          lit "Return ONLY valid JSON, nothing else." ].

(** What [findGrammarErrors] does with the completion. *)
Definition findGrammarErrors_normalize (response : value) : Prog value :=
  try_catch
    (text <- lift (string_receiver response (lit "replace")) ;;
     errors <- lift (JSON.parse (clean_response text)) ;;
     match errors with
     | VArray items =>
         kept <- lift (filter_items (both_fields (lit "error") (lit "correction")) items) ;;
         Return (VArray kept)
     | _ => Return (VArray [])
     end)
    (fun error =>
       console_error [ VString (lit "Failed to parse grammar errors:"); response ] ;;
       Return (VArray [])).

Definition findGrammarErrors (content : value) (apiKey : jsstring) : Prog value :=
  response <- callGroqAPI grammar_errors_prompt content apiKey ;;
  findGrammarErrors_normalize response.

End AiService.

(** ** [src/server.js]: [POST /api/ai] *)

Section Server.
Context `{Engine}.

(** [process.env.GROQ_API_KEY]: a string, or [undefined] when unset. *)
Variable GROQ_API_KEY : option jsstring.

(** [res.status(code).json(body)] *)
Record http_response : Type := { status : Z; body : value }.

Definition placeholder_key : jsstring := lit "your_groq_api_key_here".

(** The key the guard
    [!GROQ_API_KEY || GROQ_API_KEY === 'your_groq_api_key_here'] lets
    through. *)
Definition configured_key : option jsstring :=
  match GROQ_API_KEY with
  | None => None
  | Some key =>
      if negb (ToBoolean (VString key)) || str_eqb key placeholder_key
      then None
      else Some key
  end.

Definition failure (code : Z) (message : jsstring) : http_response :=
  {| status := code;
     body := VObject [ (lit "success", VBool false);
                       (lit "error", VString message) ] |}.

Definition missing_fields_message : jsstring :=
  lit "Missing required fields: task and content".
Definition not_configured_message : jsstring :=
  lit "AI service not configured. Please set GROQ_API_KEY in environment variables.".
Definition too_large_message : jsstring :=
  lit "Content too large. Maximum 50,000 characters allowed.".
Definition unknown_task_message (task : jsstring) : jsstring :=
  lit "Unknown task: " ++ task
    ++ lit ". Valid tasks are: summarize, tags, grammar, glossary".
Definition generic_failure_message : jsstring :=
  lit "An error occurred processing your request".

(** The [switch (task)]: the result of the task, or the response of the
    [default] case. *)
Definition dispatch (task content : value) (apiKey : jsstring)
  : Prog (http_response + value) :=
  if strict_equals_string task (lit "summarize") then
    result <- summarizeText content apiKey ;; Return (inr result)
  else if strict_equals_string task (lit "tags") then
    result <- suggestTags content apiKey ;; Return (inr result)
  else if strict_equals_string task (lit "grammar") then
    result <- checkGrammar content apiKey ;; Return (inr result)
  else if strict_equals_string task (lit "glossary") then
    result <- generateGlossary content apiKey ;; Return (inr result)
  else
    shown <- lift (ToString task) ;;
    Return (inl (failure 400 (unknown_task_message shown))).

(** The handler of [app.post('/api/ai', ...)], on the [task] and [content]
    properties of the request body ([undefined] when absent).  The two
    reads of [req.body] and the middleware around the handler are in
    [api_ai_handler] and [serve_post_api_ai] below. *)
Definition post_api_ai (task content : value) : Prog http_response :=
  try_catch
    (if negb (ToBoolean task) || negb (ToBoolean content) then
       Return (failure 400 missing_fields_message)
     else
       match configured_key with
       | None => Return (failure 500 not_configured_message)
       | Some apiKey =>
           length <- lift (Get content (lit "length")) ;;
           too_large <- lift (exceeds_50000 length) ;;
           if too_large : bool then Return (failure 400 too_large_message)
           else
             now <- now_ISO ;;
             shown_task <- lift (ToString task) ;;
             length <- lift (Get content (lit "length")) ;;
             shown_length <- lift (ToString length) ;;
             console_log
               [ VString (lit "[" ++ now ++ lit "] AI Request - Task: "
                            ++ shown_task ++ lit ", Content length: "
                            ++ shown_length) ] ;;
             routed <- dispatch task content apiKey ;;
             match routed with
             | inl response => Return response
             | inr result =>
                 now <- now_ISO ;;
                 shown_task <- lift (ToString task) ;;
                 console_log
                   [ VString (lit "[" ++ now ++ lit "] AI Response - Task: "
                                ++ shown_task ++ lit ", Success: true") ] ;;
                 Return {| status := 200;
                           body := VObject [ (lit "success", VBool true);
                                             (lit "task", task);
                                             (lit "data", result) ] |}
             end
       end)
    (fun error =>
       now <- now_ISO ;;
       console_error [ VString (lit "[" ++ now ++ lit "] AI Error:");
                       VString (exn_message error) ] ;;
       Return {| status := 500;
                 body := VObject
                   [ (lit "success", VBool false);
                     (lit "error", js_or (VString (exn_message error))
                                         (VString generic_failure_message));
                     (lit "task", task) ] |}).

End Server.

(** ** The task kinds and their normalisers *)

Inductive task_kind : Type := Summarize | Tags | Grammar | Glossary.

Definition task_name (k : task_kind) : jsstring :=
  match k with
  | Summarize => lit "summarize"
  | Tags => lit "tags"
  | Grammar => lit "grammar"
  | Glossary => lit "glossary"
  end.

Definition task_names : list jsstring :=
  map task_name [Summarize; Tags; Grammar; Glossary].

(** [task] is one of the four [case] labels of the [switch]. *)
Definition is_task_name (task : value) : bool :=
  existsb (strict_equals_string task) task_names.

Section Normalisers.
Context `{Engine}.

Definition prompt_of (k : task_kind) : jsstring :=
  match k with
  | Summarize => summarize_prompt
  | Tags => tags_prompt
  | Grammar => grammar_prompt
  | Glossary => glossary_prompt
  end.

(** What each exported function does with the completion it awaited. *)
Definition normalize (k : task_kind) (response : value) : Prog value :=
  match k with
  | Summarize | Grammar => Return response
  | Tags => suggestTags_normalize response
  | Glossary => generateGlossary_normalize response
  end.

Definition executor (k : task_kind) : value -> jsstring -> Prog value :=
  match k with
  | Summarize => summarizeText
  | Tags => suggestTags
  | Grammar => checkGrammar
  | Glossary => generateGlossary
  end.

(** The failure [callGroqAPI] rethrows for what it caught: the upstream
    message when there is one, the generic message otherwise. *)
Definition upstream_failure (error : exn) : exn :=
  if ToBoolean (upstream_error_message error) then
    match ToString (upstream_error_message error) with
    | inr text => Error text
    | inl e => e
    end
  else Error (lit "AI service error").

End Normalisers.

(** ** The rows of the normalisation table, the guards of the route *)

(** The field [key] of an entry: entries are objects; anything else has no
    field. *)
Definition field (key : jsstring) (item : value) : value :=
  match item with
  | VObject props =>
      match lookup key props with
      | Some v => v
      | None => VUndefined
      end
  | _ => VUndefined
  end.

(** A key that is neither [length] nor an array index: on strings and
    arrays it names no property. *)
Definition plain_key (key : jsstring) : bool :=
  negb (str_eqb key (lit "length"))
  && match array_index key with None => true | Some _ => false end.

(** Both fields are present and truthy (for strings: non-empty). *)
Definition has_both (a b : jsstring) (item : value) : bool :=
  ToBoolean (field a item) && ToBoolean (field b item).

Definition is_null (v : value) : bool :=
  match v with VNull => true | _ => false end.

(** Glossary row of the normalisation table as the code computes it:
    delete the fences wherever they occur ([clean_response]), parse,
    require an array whose every element has both fields; otherwise the
    empty sequence.  [glossary_spec] below is the row with the fences
    stripped as wrappers only. *)
Definition glossary_row (raw : jsstring) : value :=
  match JSON.parse (clean_response raw) with
  | inr (VArray items) =>
      if forallb (has_both (lit "term") (lit "definition")) items
      then VArray items
      else VArray []
  | _ => VArray []
  end.

(** The guards of the handler in the order it applies them, for a body
    that reached it and whose task and content are strings: the answer of
    the first guard that applies, [otherwise] when none does.  The size
    limit of the body parser comes before them ([server_guards]
    below). *)
Definition guards (GROQ_API_KEY : option jsstring) (task content : jsstring)
    (otherwise : http_response) : http_response :=
  if negb (non_empty task) || negb (non_empty content)
  then failure 400 missing_fields_message
  else match configured_key GROQ_API_KEY with
       | None => failure 500 not_configured_message
       | Some _ =>
           if (50000 <? Z.of_nat (str_length content))%Z
           then failure 400 too_large_message
           else otherwise
       end.

(** Tags row of the normalisation table. *)
Definition tags_row (raw : jsstring) : list jsstring :=
  firstn 5 (filter non_empty (map trim (split COMMA raw))).

(** The literal [p] starts nowhere in [s]. *)
Fixpoint nowhere (p s : jsstring) : bool :=
  match s with
  | [] => true
  | _ :: rest => negb (starts_with p s) && nowhere p rest
  end.

(** No code fence starts anywhere in [s]. *)
Definition fence_free (s : jsstring) : bool := nowhere (lit "```") s.

(** [body] between an opening [```json] line and a closing [```] line. *)
Definition fenced (body : jsstring) : jsstring :=
  lit "```json" ++ LF :: body ++ LF :: lit "```".

(** An array without [undefined] among its elements; any other value. *)
Definition without_undefined (v : value) : Prop :=
  match v with
  | VArray items => Forall (fun x => x <> VUndefined) items
  | _ => True
  end.

(** ** Shapes of programs *)

(** The program never calls the upstream service. *)
Fixpoint no_post {A : Type} (m : Prog A) : Prop :=
  match m with
  | Return _ | Throw _ => True
  | AxiosPost _ _ => False
  | Console _ _ k => no_post k
  | DateNow k => forall now, no_post (k now)
  end.

(** The program only writes to the console: it neither calls the upstream
    service nor reads the clock. *)
Fixpoint console_only {A : Type} (m : Prog A) : Prop :=
  match m with
  | Return _ | Throw _ => True
  | AxiosPost _ _ | DateNow _ => False
  | Console _ _ k => console_only k
  end.

(** ** Sample engine, worlds and inputs *)

Definition sample_engine : Engine :=
  {| number_to_string := fun n => lit "0";
     string_exceeds_50000 := fun _ => false;
     type_error_message := fun _ => lit "TypeError";
     syntax_error_message := fun _ => lit "SyntaxError" |}.

Definition timestamp : jsstring := lit "2024-01-01T00:00:00.000Z".

(** The upstream service is unreachable. *)
Definition offline : world :=
  {| upstream := fun _ _ => Rejected (AxiosError (lit "Network Error") None);
     clock := fun _ => timestamp |}.

(** The upstream service answers every request with [response_data]. *)
Definition answering (response_data : value) : world :=
  {| upstream := fun _ _ => Fulfilled response_data;
     clock := fun _ => timestamp |}.

(** The upstream service rejects every request with [response_data]. *)
Definition refusing (response_data : value) : world :=
  {| upstream := fun _ _ =>
       Rejected (AxiosError (lit "Request failed with status code 401")
                            (Some response_data));
     clock := fun _ => timestamp |}.

(** A chat completion whose first choice has the given message. *)
Definition completion (message : value) : value :=
  VObject [ (lit "choices", VArray [ VObject [ (lit "message", message) ] ]) ].

(** The body of an upstream error response carrying [message]. *)
Definition error_body (message : value) : value :=
  VObject [ (lit "error", VObject [ (lit "message", message) ]) ].


Definition long_content : jsstring := repeat 97 (N.to_nat 50001).

(** ** [src/server.js]: [GET /api/health] *)

(** A variable of [process.env] as a value. *)
Definition env_value (v : option jsstring) : value :=
  match v with
  | Some s => VString s
  | None => VUndefined
  end.

(** [!!GROQ_API_KEY && GROQ_API_KEY !== 'your_groq_api_key_here'] *)
Definition hasApiKey (GROQ_API_KEY : option jsstring) : bool :=
  ToBoolean (env_value GROQ_API_KEY)
  && negb (strict_equals_string (env_value GROQ_API_KEY) placeholder_key).

(** The handler of [app.get('/api/health', ...)]. *)
Definition get_api_health (GROQ_API_KEY : option jsstring) : http_response :=
  {| status := 200;
     body := VObject
       [ (lit "status", VString (lit "ok"));
         (lit "apiKeyConfigured", VBool (hasApiKey GROQ_API_KEY));
         (lit "message",
          VString (if hasApiKey GROQ_API_KEY
                   then lit "AI service ready"
                   else lit "API key not configured")) ] |}.

(** ** Outcomes of the tasks and of the route *)

(** The property [key] of the body of a response. *)
Definition response_field (key : jsstring) (r : http_response) : value :=
  field key (body r).

(** [res.json({ success: true, task, data: result })] *)
Definition success (task result : value) : http_response :=
  {| status := 200;
     body := VObject [ (lit "success", VBool true);
                       (lit "task", task);
                       (lit "data", result) ] |}.

(** The answer of the [catch] block of the route to a failure with
    [message]. *)
Definition caught (message : jsstring) (task : value) : http_response :=
  {| status := 500;
     body := VObject
       [ (lit "success", VBool false);
         (lit "error", js_or (VString message) (VString generic_failure_message));
         (lit "task", task) ] |}.

(** What a task makes of the completion text [raw]. *)
Definition task_result (k : task_kind) (raw : jsstring) : value :=
  match k with
  | Summarize | Grammar => VString raw
  | Tags => VArray (map VString (tags_row raw))
  | Glossary => glossary_row raw
  end.

(** ** More shapes of programs *)

(** Every way the program can end: [P] holds of what it returns, [Q] of
    what it throws. *)
Fixpoint ends {A : Type} (P : A -> Prop) (Q : exn -> Prop) (m : Prog A) : Prop :=
  match m with
  | Return a => P a
  | Throw e => Q e
  | AxiosPost _ k => forall s, ends P Q (k s)
  | Console _ _ k => ends P Q k
  | DateNow k => forall now, ends P Q (k now)
  end.

(** The program calls the upstream service at most once, and then with
    [request]. *)
Fixpoint posts_only (request : axios_request) {A : Type} (m : Prog A) : Prop :=
  match m with
  | Return _ | Throw _ => True
  | AxiosPost r k => r = request /\ forall s, no_post (k s)
  | Console _ _ k => posts_only request k
  | DateNow k => forall now, posts_only request (k now)
  end.

(** The program writes [n] lines to the console on the way it takes in
    world [w]. *)
Definition console_lines {A : Type} (w : world) (h : history) (m : Prog A) : nat :=
  List.length (console (snd (run w h m))) - List.length (console h).

(** [typeof v === 'string'] *)
Definition is_string (v : value) : bool :=
  match v with VString _ => true | _ => false end.

(** A response the client can rely on: 200 with [success: true] and the
    task echoed, or 400 or 500 with [success: false] and a non-empty
    [error] string. *)
Definition is_answer (task : value) (r : http_response) : Prop :=
  (status r = 200%Z
   /\ response_field (lit "success") r = VBool true
   /\ response_field (lit "task") r = task)
  \/ ((status r = 400%Z \/ status r = 500%Z)
      /\ response_field (lit "success") r = VBool false
      /\ exists message, message <> []
                         /\ response_field (lit "error") r = VString message).

(** The functions [src/aiService.js] exports, each with its prompt. *)
Definition exported_functions `{Engine}
  : list (jsstring * (value -> jsstring -> Prog value)) :=
  [ (summarize_prompt, summarizeText);
    (tags_prompt, suggestTags);
    (grammar_prompt, checkGrammar);
    (glossary_prompt, generateGlossary);
    (grammar_errors_prompt, findGrammarErrors) ].

(** [body] between an opening [```] line and a closing [```] line. *)
Definition bare_fenced (body : jsstring) : jsstring :=
  lit "```" ++ LF :: body ++ LF :: lit "```".

(** A tag as the client gets it: not empty, without comma, without white
    space at either end. *)
Definition clean_tag (tag : jsstring) : Prop :=
  tag <> []
  /\ ~ In COMMA tag
  /\ is_white_space (hd 0 tag) = false
  /\ is_white_space (last tag 0) = false.

(** ** The glossary row, in the words of the specification *)






(** ** [src/server.js]: the middleware around the route *)

(** The major version of Express.  [src/] does not pin it, and two things
    the route depends on differ: what [req.body] is when [express.json()]
    passes a request by, and what becomes of a rejected handler. *)
Inductive express : Type := Express4 | Express5.

(** The body of a request as [express.json({ limit: '10mb' })] meets it:
    none that it parses (no body, or a content type other than JSON); one
    it refuses before reading the text (unsupported charset or encoding,
    aborted request), with the error it passes on; or a JSON body, whose
    decoded [text] took one byte per code unit and [wide] bytes more for
    the characters that take several. *)
Inductive request_body : Type :=
| NoJsonBody
| Refused (err : exn)
| JsonBody (text : jsstring) (wide : N).

(** ['10mb'] *)
Definition body_limit : N := 10 * 1024 * 1024.

Definition body_bytes (text : jsstring) (wide : N) : N :=
  N.of_nat (str_length text) + wide.

(** [v == null]: the values whose properties cannot be read. *)
Definition is_nullish (v : value) : bool :=
  match v with
  | VUndefined | VNull => true
  | _ => false
  end.

(** [req.body] of a request the parser passes by: [{}] up to Express 4,
    [undefined] from Express 5 on. *)
Definition unparsed_body (version : express) : value :=
  match version with
  | Express4 => VObject []
  | Express5 => VUndefined
  end.

(** The strict mode of the parser: the first character after white space
    opens an object or an array. *)
Definition opens_object_or_array (text : jsstring) : bool :=
  match JSON.skip_ws text with
  | c :: _ => (c =? 123) || (c =? 91)
  | [] => false
  end.

(** [express.json({ limit: '10mb' })]: [req.body], or the error handed to
    [next]. *)
Definition express_json (version : express) (request : request_body)
  : result value :=
  match request with
  | NoJsonBody => inr (unparsed_body version)
  | Refused err => inl err
  | JsonBody text wide =>
      if body_limit <? body_bytes text wide
      then inl (Error (lit "request entity too large"))
      else match text with
           | [] => inr (VObject [])
           | _ :: _ =>
               if opens_object_or_array text then JSON.parse text
               else inl (SyntaxError text)
           end
  end.

Section Middleware.
Context `{Engine}.
Variable GROQ_API_KEY : option jsstring.

(** The [try] block of the handler, after [const { task, content } =
    req.body]. *)
Definition api_ai_try (task content : value) : Prog http_response :=
  if negb (ToBoolean task) || negb (ToBoolean content) then
    Return (failure 400 missing_fields_message)
  else
    match configured_key GROQ_API_KEY with
    | None => Return (failure 500 not_configured_message)
    | Some apiKey =>
        length <- lift (Get content (lit "length")) ;;
        too_large <- lift (exceeds_50000 length) ;;
        if too_large : bool then Return (failure 400 too_large_message)
        else
          now <- now_ISO ;;
          shown_task <- lift (ToString task) ;;
          length <- lift (Get content (lit "length")) ;;
          shown_length <- lift (ToString length) ;;
          console_log
            [ VString (lit "[" ++ now ++ lit "] AI Request - Task: "
                         ++ shown_task ++ lit ", Content length: "
                         ++ shown_length) ] ;;
          routed <- dispatch task content apiKey ;;
          match routed with
          | inl response => Return response
          | inr result =>
              now <- now_ISO ;;
              shown_task <- lift (ToString task) ;;
              console_log
                [ VString (lit "[" ++ now ++ lit "] AI Response - Task: "
                             ++ shown_task ++ lit ", Success: true") ] ;;
              Return {| status := 200;
                        body := VObject [ (lit "success", VBool true);
                                          (lit "task", task);
                                          (lit "data", result) ] |}
          end
    end.

(** The handler of [app.post('/api/ai', ...)] on [req.body]: the body is
    read once at the head of the [try] block and once more, for the task,
    in the [catch] block. *)
Definition api_ai_handler (req_body : value) : Prog http_response :=
  try_catch
    (task <- lift (Get req_body (lit "task")) ;;
     content <- lift (Get req_body (lit "content")) ;;
     api_ai_try task content)
    (fun error =>
       now <- now_ISO ;;
       console_error [ VString (lit "[" ++ now ++ lit "] AI Error:");
                       VString (exn_message error) ] ;;
       task <- lift (Get req_body (lit "task")) ;;
       Return {| status := 500;
                 body := VObject
                   [ (lit "success", VBool false);
                     (lit "error", js_or (VString (exn_message error))
                                         (VString generic_failure_message));
                     (lit "task", task) ] |}).

Definition internal_error_message : jsstring := lit "Internal server error".

(** The error handler [app.use((err, req, res, next) => ...)]; of the
    error object it logs, the model keeps the message. *)
Definition error_handler (err : exn) : Prog (option http_response) :=
  console_error [ VString (lit "Server Error:"); VString (exn_message err) ] ;;
  Return (Some (failure 500 internal_error_message)).

(** [POST /api/ai] through the server: the body parser, then the handler,
    and the error handler for what either of them hands on.  Express 5
    hands a rejected handler on to the error handler; Express 4 does not,
    and the request stays without response. *)
Definition serve_post_api_ai (version : express) (request : request_body)
  : Prog (option http_response) :=
  match express_json version request with
  | inl err => error_handler err
  | inr req_body =>
      try_catch
        (response <- api_ai_handler req_body ;; Return (Some response))
        (fun err =>
           match version with
           | Express5 => error_handler err
           | Express4 => Return None
           end)
  end.

End Middleware.

(** The guards of the server in the order a request meets them, for a
    JSON body of [bytes] bytes whose task and content are strings: the
    size limit of the parser first, then the guards of the handler. *)
Definition server_guards (GROQ_API_KEY : option jsstring) (bytes : N)
    (task content : jsstring) (otherwise : http_response) : http_response :=
  if body_limit <? bytes then failure 500 internal_error_message
  else guards GROQ_API_KEY task content otherwise.

(** The code units of the strings a value holds. *)
Fixpoint string_weight (v : value) : nat :=
  match v with
  | VString s => str_length s
  | VArray items => list_sum (map string_weight items)
  | VObject props =>
      list_sum (map (fun p => match p with (_, x) => string_weight x end) props)
  | _ => 0%nat
  end.


(** The task the handler finds in the request: [undefined] when the body
    parser refuses the request or leaves no body behind. *)
Definition requested_task (version : express) (request : request_body) : value :=
  match express_json version request with
  | inr req_body => property req_body (lit "task")
  | inl _ => VUndefined
  end.

(** A string that JSON writes down as it is: no quotation mark, no reverse
    solidus, no control character. *)
Definition plain (s : jsstring) : bool :=
  forallb (fun c => (32 <=? c) && negb (c =? 34) && negb (c =? 92)) s.

(** The text of the body [{"task":task,"content":content}]. *)
Definition json_request (task content : jsstring) : jsstring :=
  qlit "{'task':'" ++ task ++ qlit "','content':'" ++ content ++ qlit "'}".
(** * Properties *)

(** ** Strings *)

Example split_keeps_empty_pieces :
  split COMMA (lit "a,,b,") = [lit "a"; lit ""; lit "b"; lit ""].
Proof. reflexivity. Qed.

Example trim_removes_unicode_space :
  trim (32 :: 160 :: lit "a b" ++ [LF; 9]) = lit "a b".
Proof. reflexivity. Qed.

Example replace_is_global :
  remove_matches fence_re (lit "```" ++ LF :: lit "x```y````") = lit "xy`".
Proof. reflexivity. Qed.

Lemma str_eqb_eq (a b : jsstring) : str_eqb a b = true <-> a = b.
Proof.
  revert b; induction a as [|x a IH]; intros [|y b]; simpl; split;
    try congruence; try reflexivity.
  - intros Hxy. apply andb_true_iff in Hxy as [Hx Ha].
    apply N.eqb_eq in Hx. apply IH in Ha. congruence.
  - intros Heq. injection Heq as -> ->.
    rewrite N.eqb_refl. simpl. apply IH. reflexivity.
Qed.

Lemma str_eqb_refl (a : jsstring) : str_eqb a a = true.
Proof. apply str_eqb_eq. reflexivity. Qed.

Lemma split_not_nil (sep : N) (s : jsstring) : split sep s <> [].
Proof.
  destruct s as [|c rest]; simpl; [discriminate|].
  destruct (c =? sep); [discriminate|].
  destruct (split sep rest); discriminate.
Qed.

(** Joining the pieces of a split gives the string back. *)
Lemma join_split (sep : N) (s : jsstring) : join sep (split sep s) = s.
Proof.
  induction s as [|c rest IH]; [reflexivity|]. simpl.
  destruct (N.eqb_spec c sep) as [->|Hne].
  - pose proof (split_not_nil sep rest) as Hnn.
    destruct (split sep rest) as [|piece more]; [contradiction|].
    simpl in *. destruct more; simpl in *; rewrite IH; reflexivity.
  - pose proof (split_not_nil sep rest) as Hnn.
    destruct (split sep rest) as [|piece more]; [contradiction|].
    simpl in *. destruct more; simpl in *; rewrite <- IH; reflexivity.
Qed.

(** No piece of a split contains the separator. *)
Lemma split_pieces_without_separator (sep : N) (s : jsstring) :
  Forall (fun piece => ~ In sep piece) (split sep s).
Proof.
  induction s as [|c rest IH]; simpl.
  - constructor; [intros []|constructor].
  - destruct (N.eqb_spec c sep) as [->|Hne].
    + constructor; [intros []|exact IH].
    + destruct (split sep rest) as [|piece more].
      * constructor; [|constructor]. intros [Hc|[]]. congruence.
      * inversion IH as [|? ? Hpiece Hmore]; subst.
        constructor; [|exact Hmore].
        intros [Hc|Hin]; [congruence|contradiction].
Qed.

(** [trim_start] removes a run of white space and stops at the first other
    code unit. *)
Lemma trim_start_spec (s : jsstring) :
  exists ws, s = ws ++ trim_start s
             /\ forallb is_white_space ws = true
             /\ match trim_start s with
                | [] => True
                | c :: _ => is_white_space c = false
                end.
Proof.
  induction s as [|c rest (ws & Heq & Hws & Hhead)]; simpl.
  - exists []. repeat split.
  - destruct (is_white_space c) eqn:Hc.
    + exists (c :: ws). simpl. rewrite Hc, Hws. repeat split; [|exact Hhead].
      f_equal. exact Heq.
    + exists []. repeat split. exact Hc.
Qed.

(** [trim] removes white space at both ends and nothing else. *)
Lemma trim_spec (s : jsstring) :
  exists before after,
    s = before ++ trim s ++ after
    /\ forallb is_white_space before = true
    /\ forallb is_white_space after = true
    /\ match trim s with
       | [] => True
       | c :: _ => is_white_space c = false
       end
    /\ match rev (trim s) with
       | [] => True
       | c :: _ => is_white_space c = false
       end.
Proof.
  unfold trim, trim_end.
  destruct (trim_start_spec s) as (before & Hs & Hbefore & Hhead).
  destruct (trim_start_spec (rev (trim_start s))) as (after & Hr & Hafter & Hlast).
  set (core := trim_start (rev (trim_start s))) in *.
  assert (Hmid : trim_start s = rev core ++ rev after).
  { rewrite <- (rev_involutive (trim_start s)), Hr, rev_app_distr. reflexivity. }
  exists before, (rev after). repeat split.
  - rewrite Hs at 1. rewrite Hmid. reflexivity.
  - exact Hbefore.
  - rewrite forallb_forall in *. intros x Hx. apply Hafter.
    apply in_rev. exact Hx.
  - rewrite Hmid in Hhead. destruct (rev core) as [|c more] eqn:Hcore; [exact I|].
    exact Hhead.
  - rewrite rev_involutive. exact Hlast.
Qed.

(** ** Tags *)

Lemma parse_tags_is_tags_row (raw : jsstring) : parse_tags raw = tags_row raw.
Proof.
  unfold parse_tags, tags_row. f_equal. apply filter_ext.
  intros [|c tag]; reflexivity.
Qed.

Lemma filter_non_empty (l : list jsstring) :
  Forall (fun tag => tag <> []) (filter non_empty l).
Proof.
  apply Forall_forall. intros tag Hin. apply filter_In in Hin as [_ Hne].
  destruct tag; [discriminate|discriminate].
Qed.

Lemma Forall_firstn {A : Type} (P : A -> Prop) (n : nat) (l : list A) :
  Forall P l -> Forall P (firstn n l).
Proof.
  intros Hl. revert n.
  induction Hl as [|x l Hx Hl IH]; intros [|n]; simpl; constructor; auto.
Qed.

(** C2.  For every raw completion [raw], the tags are the first five
    non-empty trimmed pieces of [raw] split on commas, in order: the pieces
    joined by commas are [raw] and none contains a comma; the result has
    [min 5 n] entries when [n] trimmed pieces are non-empty (no padding),
    none of them empty; [suggestTags] returns them as an array without
    further effect; and the completion
    ["alpha, beta ,gamma,,delta, epsilon, zeta"] gives alpha, beta, gamma,
    delta, epsilon. *)
Theorem C2_tags_normalizer (raw : jsstring) :
  let pieces := split COMMA raw in
  let kept := filter non_empty (map trim pieces) in
  join COMMA pieces = raw
  /\ Forall (fun piece => ~ In COMMA piece) pieces
  /\ parse_tags raw = firstn 5 kept
  /\ List.length (parse_tags raw) = Nat.min 5 (List.length kept)
  /\ Forall (fun tag => tag <> []) (parse_tags raw)
  /\ (forall w h,
        run w h (suggestTags_normalize (VString raw))
        = (inr (VArray (map VString (tags_row raw))), h))
  /\ parse_tags (lit "alpha, beta ,gamma,,delta, epsilon, zeta")
     = [lit "alpha"; lit "beta"; lit "gamma"; lit "delta"; lit "epsilon"].
Proof.
  intros pieces kept.
  assert (Hrow : parse_tags raw = firstn 5 kept)
    by (rewrite parse_tags_is_tags_row; reflexivity).
  split; [apply join_split|].
  split; [apply split_pieces_without_separator|].
  split; [exact Hrow|].
  split; [rewrite Hrow; apply length_firstn|].
  split; [rewrite Hrow; apply Forall_firstn, filter_non_empty|].
  split; [|vm_compute; reflexivity].
  intros w h. unfold suggestTags_normalize. simpl.
  rewrite parse_tags_is_tags_row. reflexivity.
Qed.

(** ** Code fences *)

Lemma starts_with_app (p a b : jsstring) :
  starts_with p a = true -> starts_with p (a ++ b) = true.
Proof.
  revert a; induction p as [|x p IH]; intros [|y a]; simpl; try discriminate;
    auto.
  intros Hxy. apply andb_true_iff in Hxy as [Hx Hp].
  rewrite Hx. simpl. apply IH. exact Hp.
Qed.

Lemma starts_with_longer (p q s : jsstring) :
  starts_with (p ++ q) s = true -> starts_with p s = true.
Proof.
  revert s; induction p as [|x p IH]; intros s; [reflexivity|].
  destruct s as [|y s]; simpl; [discriminate|].
  intros Hs. apply andb_true_iff in Hs as [Hx Hp].
  rewrite Hx. simpl. apply IH. exact Hp.
Qed.

Lemma fence_json_is_fence (s : jsstring) :
  starts_with (lit "```json") s = true -> starts_with (lit "```") s = true.
Proof. apply (starts_with_longer (lit "```") (lit "json")). Qed.

(** Where the literal starts nowhere, its pattern removes nothing. *)
Lemma remove_matches_nowhere (p s : jsstring) :
  nowhere p s = true ->
  remove_matches (literal_then_optional_LF p) s = s.
Proof.
  unfold remove_matches.
  induction s as [|c rest IH]; [reflexivity|].
  intros Hfree. cbn [nowhere] in Hfree.
  apply andb_true_iff in Hfree as [Hhere Hrest].
  apply negb_true_iff in Hhere.
  cbn [remove_matches_from]. unfold literal_then_optional_LF at 1.
  rewrite Hhere, IH by exact Hrest. reflexivity.
Qed.

Lemma nowhere_longer (p q s : jsstring) :
  nowhere p s = true -> nowhere (p ++ q) s = true.
Proof.
  induction s as [|c rest IH]; [reflexivity|]. cbn [nowhere].
  intros Hs. apply andb_true_iff in Hs as [Hhere Hrest].
  apply andb_true_iff. split; [|apply IH; exact Hrest].
  apply negb_true_iff. apply negb_true_iff in Hhere.
  destruct (starts_with (p ++ q) (c :: rest)) eqn:Hpq; [|reflexivity].
  apply starts_with_longer in Hpq. congruence.
Qed.

(** A completion without fence is only trimmed. *)
Lemma clean_response_plain (s : jsstring) :
  fence_free s = true -> clean_response s = trim s.
Proof.
  intros Hfree. unfold clean_response, fence_json_re, fence_re.
  rewrite (remove_matches_nowhere (lit "```json"))
    by exact (nowhere_longer (lit "```") (lit "json") s Hfree).
  rewrite (remove_matches_nowhere (lit "```")) by exact Hfree.
  reflexivity.
Qed.

(** A fence does not start in a fence-free text followed by a line feed. *)
Lemma no_fence_across_line_feed (a t : jsstring) :
  a <> [] -> starts_with (lit "```") a = false ->
  starts_with (lit "```") (a ++ LF :: t) = false.
Proof.
  intros Ha. change (lit "```") with [96; 96; 96].
  destruct a as [|x [|y [|z a]]]; [contradiction| | |];
    cbn [starts_with app]; intros Hs.
  - destruct (96 =? x); reflexivity.
  - destruct (96 =? x), (96 =? y); reflexivity.
  - exact Hs.
Qed.

Lemma nowhere_before_closing_fence (p body : jsstring) :
  (forall t, starts_with p t = true -> starts_with (lit "```") t = true) ->
  nowhere p (LF :: lit "```") = true ->
  fence_free body = true ->
  nowhere p (body ++ LF :: lit "```") = true.
Proof.
  intros Hp Htail. induction body as [|c rest IH]; [intros _; exact Htail|].
  unfold fence_free. cbn [nowhere]. intros Hfree.
  apply andb_true_iff in Hfree as [Hhere Hrest].
  apply negb_true_iff in Hhere.
  change ((c :: rest) ++ LF :: lit "```") with (c :: rest ++ LF :: lit "```").
  cbn [nowhere]. apply andb_true_iff. split; [|apply IH; exact Hrest].
  apply negb_true_iff.
  destruct (starts_with p (c :: rest ++ LF :: lit "```")) eqn:Hstart;
    [|reflexivity].
  apply Hp in Hstart.
  pose proof (no_fence_across_line_feed (c :: rest) (lit "```")
                ltac:(discriminate) Hhere) as Hno.
  change ((c :: rest) ++ LF :: lit "```") with (c :: rest ++ LF :: lit "```")
    in Hno.
  congruence.
Qed.

(** The second pattern removes the closing fence of a fence-free body. *)
Lemma remove_closing_fence (body : jsstring) :
  fence_free body = true ->
  remove_matches fence_re (body ++ LF :: lit "```") = body ++ [LF].
Proof.
  unfold remove_matches. induction body as [|c rest IH]; [reflexivity|].
  unfold fence_free. cbn [nowhere]. intros Hfree.
  apply andb_true_iff in Hfree as [Hhere Hrest].
  apply negb_true_iff in Hhere.
  change ((c :: rest) ++ LF :: lit "```") with (c :: rest ++ LF :: lit "```").
  cbn [remove_matches_from].
  unfold fence_re at 1, literal_then_optional_LF at 1.
  pose proof (no_fence_across_line_feed (c :: rest) (lit "```")
                ltac:(discriminate) Hhere) as Hno.
  change ((c :: rest) ++ LF :: lit "```") with (c :: rest ++ LF :: lit "```")
    in Hno.
  rewrite Hno, IH by exact Hrest. reflexivity.
Qed.

Lemma trim_start_app (a b : jsstring) :
  trim_start (a ++ b)
  = match trim_start a with
    | [] => trim_start b
    | _ :: _ => trim_start a ++ b
    end.
Proof.
  induction a as [|c a IH]; [reflexivity|]. simpl.
  destruct (is_white_space c); [exact IH|reflexivity].
Qed.

(** White space at the end does not survive [trim]. *)
Lemma trim_trailing_white_space (s : jsstring) (c : N) :
  is_white_space c = true -> trim (s ++ [c]) = trim s.
Proof.
  intros Hc. unfold trim. rewrite trim_start_app.
  destruct (trim_start s) as [|x t] eqn:Hs.
  - simpl. rewrite Hc. reflexivity.
  - unfold trim_end. rewrite rev_app_distr. simpl rev at 2.
    cbn [app trim_start]. rewrite Hc. reflexivity.
Qed.

(** A fence-free body between fences is unwrapped and trimmed. *)
Lemma clean_response_fenced (body : jsstring) :
  fence_free body = true -> clean_response (fenced body) = trim body.
Proof.
  intros Hfree. unfold clean_response, fenced.
  assert (Hopen : remove_matches fence_json_re
                    (lit "```json" ++ LF :: body ++ LF :: lit "```")
                  = remove_matches fence_json_re (body ++ LF :: lit "```"))
    by reflexivity.
  rewrite Hopen. unfold fence_json_re.
  rewrite remove_matches_nowhere.
  - rewrite remove_closing_fence by exact Hfree.
    apply trim_trailing_white_space. reflexivity.
  - apply nowhere_before_closing_fence;
      [apply fence_json_is_fence|reflexivity|exact Hfree].
Qed.

(** A fenced completion is normalised as its body is. *)
Lemma glossary_row_fenced (body : jsstring) :
  fence_free body = true -> glossary_row (fenced body) = glossary_row body.
Proof.
  intros Hfree. unfold glossary_row.
  rewrite clean_response_fenced, clean_response_plain by exact Hfree.
  reflexivity.
Qed.

(** ** [JSON.parse] never runs out of fuel *)

Lemma skip_ws_length (s : jsstring) :
  (List.length (JSON.skip_ws s) <= List.length s)%nat.
Proof.
  induction s as [|c rest IH]; simpl; [lia|].
  destruct (JSON.is_ws c); simpl; lia.
Qed.

Lemma string_body_length (s str rest : jsstring) :
  JSON.string_body s = Some (str, rest) ->
  (List.length rest < List.length s)%nat.
Proof.
  remember (List.length s) as n eqn:Hn.
  revert s str rest Hn.
  induction n as [n IH] using lt_wf_ind. intros s str rest Hn Hs.
  destruct s as [|c s1]; simpl in Hs; [discriminate|].
  assert (Hstep : forall u t, (List.length t < n)%nat ->
            JSON.prepend u (JSON.string_body t) = Some (str, rest) ->
            (List.length rest < List.length t)%nat).
  { intros u t Ht Hp. unfold JSON.prepend in Hp.
    destruct (JSON.string_body t) as [[str' rest']|] eqn:Et; [|discriminate].
    injection Hp as _ <-. eapply IH; [exact Ht|reflexivity|exact Et]. }
  simpl in Hn. subst n.
  destruct (c =? 34).
  { injection Hs as _ <-. simpl. lia. }
  destruct (c =? 92).
  - destruct s1 as [|e s2]; [discriminate|].
    destruct (e =? 117).
    + destruct s2 as [|h1 [|h2 [|h3 [|h4 s3]]]]; try discriminate.
      destruct (JSON.hex_digit h1); [|discriminate].
      destruct (JSON.hex_digit h2); [|discriminate].
      destruct (JSON.hex_digit h3); [|discriminate].
      destruct (JSON.hex_digit h4); [|discriminate].
      apply Hstep in Hs; simpl in *; lia.
    + destruct (JSON.escape e); [|discriminate].
      apply Hstep in Hs; simpl in *; lia.
  - destruct (c <? 32); [discriminate|].
    apply Hstep in Hs; simpl in *; lia.
Qed.

Lemma take_digits_length (s : jsstring) :
  (List.length (snd (JSON.take_digits s)) <= List.length s)%nat.
Proof.
  induction s as [|c rest IH]; simpl; [lia|].
  destruct (is_digit c); simpl; [|lia].
  destruct (JSON.take_digits rest); simpl in *; lia.
Qed.

Lemma take_digits_rest (s ds r : jsstring) :
  JSON.take_digits s = (ds, r) -> (List.length r <= List.length s)%nat.
Proof.
  intros Hs. pose proof (take_digits_length s) as Hl.
  rewrite Hs in Hl. exact Hl.
Qed.

Lemma number_literal_length (s rest : jsstring) (n : number) :
  JSON.number_literal s = Some (n, rest) ->
  (List.length rest < List.length s)%nat.
Proof.
  unfold JSON.number_literal.
  set (signed := match s with
                 | [] => (false, s)
                 | c :: r => if c =? 45 then (true, r) else (false, s)
                 end).
  assert (Hsigned : (List.length (snd signed) <= List.length s)%nat).
  { subst signed. destruct s as [|c r]; simpl; [lia|].
    destruct (c =? 45); simpl; lia. }
  destruct signed as [minus s1]. simpl in Hsigned.
  destruct (JSON.int_part s1) as [[int s2]|] eqn:Eint; [|discriminate].
  assert (Hint : (List.length s2 < List.length s1)%nat).
  { unfold JSON.int_part in Eint. destruct s1 as [|c r]; [discriminate|].
    destruct (c =? 48).
    - injection Eint as _ <-. simpl. lia.
    - destruct (is_digit c); [|discriminate].
      destruct (JSON.take_digits r) as [ds r'] eqn:Er.
      apply take_digits_rest in Er. injection Eint as _ <-. simpl. lia. }
  destruct (JSON.frac_part s2) as [[frac s3]|] eqn:Efrac; [|discriminate].
  assert (Hfrac : (List.length s3 <= List.length s2)%nat).
  { unfold JSON.frac_part in Efrac. destruct s2 as [|c r].
    - injection Efrac as _ <-. simpl. lia.
    - destruct (c =? 46).
      + destruct (JSON.take_digits r) as [ds r'] eqn:Er.
        apply take_digits_rest in Er.
        destruct ds; [discriminate|]. injection Efrac as _ <-. simpl. lia.
      + injection Efrac as _ <-. lia. }
  destruct (JSON.exp_part s3) as [[e s4]|] eqn:Eexp; [|discriminate].
  assert (Hexp : (List.length s4 <= List.length s3)%nat).
  { unfold JSON.exp_part in Eexp. destruct s3 as [|c r].
    - injection Eexp as _ <-. simpl. lia.
    - destruct ((c =? 101) || (c =? 69)).
      + set (sg := match r with
                   | [] => (false, r)
                   | sign :: r0 =>
                       if sign =? 45 then (true, r0)
                       else if sign =? 43 then (false, r0) else (false, r)
                   end) in Eexp.
        assert (Hsg : (List.length (snd sg) <= List.length r)%nat).
        { subst sg. destruct r as [|sign r0]; simpl; [lia|].
          destruct (sign =? 45); simpl; [lia|].
          destruct (sign =? 43); simpl; lia. }
        destruct sg as [m r1]. simpl in Hsg.
        destruct (JSON.take_digits r1) as [ds r'] eqn:Er.
        apply take_digits_rest in Er.
        destruct ds; [discriminate|]. injection Eexp as _ <-. simpl. lia.
      + injection Eexp as _ <-. lia. }
  intros Hsome. injection Hsome as _ <-. lia.
Qed.

Lemma skipn_shorter (n : nat) (s : jsstring) :
  s <> [] -> (List.length (skipn (S n) s) < List.length s)%nat.
Proof.
  intros Hs. destruct s as [|c r]; [contradiction|].
  rewrite length_skipn. simpl. lia.
Qed.

(** Whatever the fuel, a parsed value, array tail or object tail has
    consumed input. *)
Lemma parsers_consume (fuel : nat) :
  (forall s v rest, JSON.value_at fuel s = JSON.Parsed v rest ->
     (List.length rest < List.length s)%nat)
  /\ (forall s acc v rest, JSON.elements fuel s acc = JSON.Parsed v rest ->
        (List.length rest < List.length s)%nat)
  /\ (forall s acc v rest, JSON.members fuel s acc = JSON.Parsed v rest ->
        (List.length rest < List.length s)%nat).
Proof.
  induction fuel as [|fuel (IHv & IHe & IHm)];
    [repeat split; intros; discriminate|].
  repeat split.
  - intros s v rest Hs. cbn [JSON.value_at] in Hs.
    destruct s as [|c r]; [discriminate|].
    destruct (c =? 91).
    { pose proof (skip_ws_length r) as Hws.
      destruct (JSON.skip_ws r) as [|c' r'] eqn:Er; [discriminate|].
      destruct (c' =? 93).
      - injection Hs as _ <-. simpl in *. lia.
      - apply IHe in Hs. simpl in *. lia. }
    destruct (c =? 123).
    { pose proof (skip_ws_length r) as Hws.
      destruct (JSON.skip_ws r) as [|c' r'] eqn:Er; [discriminate|].
      destruct (c' =? 125).
      - injection Hs as _ <-. simpl in *. lia.
      - apply IHm in Hs. simpl in *. lia. }
    destruct (c =? 34).
    { destruct (JSON.string_body r) as [[str r']|] eqn:Er; [|discriminate].
      apply string_body_length in Er. injection Hs as _ <-. simpl. lia. }
    assert (Hne : c :: r <> []) by discriminate.
    destruct (starts_with (lit "true") (c :: r)).
    { injection Hs as _ <-. exact (skipn_shorter 3 (c :: r) Hne). }
    destruct (starts_with (lit "false") (c :: r)).
    { injection Hs as _ <-. exact (skipn_shorter 4 (c :: r) Hne). }
    destruct (starts_with (lit "null") (c :: r)).
    { injection Hs as _ <-. exact (skipn_shorter 3 (c :: r) Hne). }
    destruct (JSON.number_literal (c :: r)) as [[n r']|] eqn:En; [|discriminate].
    apply number_literal_length in En. injection Hs as _ <-. exact En.
  - intros s acc v rest Hs. cbn [JSON.elements] in Hs.
    destruct (JSON.value_at fuel s) as [x r| |] eqn:Ev; try discriminate.
    apply IHv in Ev. pose proof (skip_ws_length r) as Hws.
    destruct (JSON.skip_ws r) as [|c r'] eqn:Er; [discriminate|].
    destruct (c =? 44).
    + apply IHe in Hs. pose proof (skip_ws_length r'). simpl in *. lia.
    + destruct (c =? 93); [|discriminate].
      injection Hs as _ <-. simpl in *. lia.
  - intros s acc v rest Hs. cbn [JSON.members] in Hs.
    destruct s as [|c r]; [discriminate|].
    destruct (c =? 34); [|discriminate].
    destruct (JSON.string_body r) as [[key r1]|] eqn:Ekey; [|discriminate].
    apply string_body_length in Ekey.
    pose proof (skip_ws_length r1) as Hws1.
    destruct (JSON.skip_ws r1) as [|c1 r2] eqn:Er1; [discriminate|].
    destruct (c1 =? 58); [|discriminate].
    destruct (JSON.value_at fuel (JSON.skip_ws r2)) as [x r3| |] eqn:Ev;
      try discriminate.
    apply IHv in Ev. pose proof (skip_ws_length r2) as Hws2.
    pose proof (skip_ws_length r3) as Hws3.
    destruct (JSON.skip_ws r3) as [|c2 r4] eqn:Er3; [discriminate|].
    destruct (c2 =? 44).
    + apply IHm in Hs. pose proof (skip_ws_length r4). simpl in *. lia.
    + destruct (c2 =? 125); [|discriminate].
      injection Hs as _ <-. simpl in *. lia.
Qed.

(** With twice the length of the input as fuel, no parser runs out. *)
Lemma parsers_have_fuel (fuel : nat) :
  (forall s, (2 * List.length s < fuel)%nat ->
     JSON.value_at fuel s <> JSON.OutOfFuel)
  /\ (forall s acc, (2 * List.length s + 1 < fuel)%nat ->
        JSON.elements fuel s acc <> JSON.OutOfFuel)
  /\ (forall s acc, (2 * List.length s + 1 < fuel)%nat ->
        JSON.members fuel s acc <> JSON.OutOfFuel).
Proof.
  induction fuel as [|fuel (IHv & IHe & IHm)];
    [repeat split; intros; lia|].
  repeat split.
  - intros s Hf. cbn [JSON.value_at].
    destruct s as [|c r]; [discriminate|].
    destruct (c =? 91).
    { pose proof (skip_ws_length r) as Hws.
      destruct (JSON.skip_ws r) as [|c' r'] eqn:Er; [discriminate|].
      destruct (c' =? 93); [discriminate|].
      apply IHe. simpl in *. lia. }
    destruct (c =? 123).
    { pose proof (skip_ws_length r) as Hws.
      destruct (JSON.skip_ws r) as [|c' r'] eqn:Er; [discriminate|].
      destruct (c' =? 125); [discriminate|].
      apply IHm. simpl in *. lia. }
    destruct (c =? 34).
    { destruct (JSON.string_body r) as [[str r']|]; discriminate. }
    destruct (starts_with (lit "true") (c :: r)); [discriminate|].
    destruct (starts_with (lit "false") (c :: r)); [discriminate|].
    destruct (starts_with (lit "null") (c :: r)); [discriminate|].
    destruct (JSON.number_literal (c :: r)) as [[n r']|]; discriminate.
  - intros s acc Hf. cbn [JSON.elements].
    destruct (JSON.value_at fuel s) as [x r| |] eqn:Ev.
    + apply (proj1 (parsers_consume fuel)) in Ev.
      pose proof (skip_ws_length r) as Hws.
      destruct (JSON.skip_ws r) as [|c r'] eqn:Er; [discriminate|].
      destruct (c =? 44).
      * apply IHe. pose proof (skip_ws_length r'). simpl in *. lia.
      * destruct (c =? 93); discriminate.
    + discriminate.
    + exfalso. apply (IHv s); [lia|exact Ev].
  - intros s acc Hf. cbn [JSON.members].
    destruct s as [|c r]; [discriminate|].
    destruct (c =? 34); [|discriminate].
    destruct (JSON.string_body r) as [[key r1]|] eqn:Ekey; [|discriminate].
    apply string_body_length in Ekey.
    pose proof (skip_ws_length r1) as Hws1.
    destruct (JSON.skip_ws r1) as [|c1 r2] eqn:Er1; [discriminate|].
    destruct (c1 =? 58); [|discriminate].
    pose proof (skip_ws_length r2) as Hws2.
    destruct (JSON.value_at fuel (JSON.skip_ws r2)) as [x r3| |] eqn:Ev.
    + apply (proj1 (parsers_consume fuel)) in Ev.
      pose proof (skip_ws_length r3) as Hws3.
      destruct (JSON.skip_ws r3) as [|c2 r4] eqn:Er3; [discriminate|].
      destruct (c2 =? 44).
      * apply IHm. pose proof (skip_ws_length r4). simpl in *. lia.
      * destruct (c2 =? 125); discriminate.
    + discriminate.
    + exfalso. apply (IHv (JSON.skip_ws r2)); [simpl in *; lia|exact Ev].
Qed.

(** The fuel [JSON.parse] gives its parser is enough for every text: a
    [SyntaxError] is always an error of syntax. *)
Theorem JSON_fuel_suffices (text : jsstring) :
  JSON.value_at (JSON.fuel_for text) (JSON.skip_ws text) <> JSON.OutOfFuel.
Proof.
  apply (proj1 (parsers_have_fuel (JSON.fuel_for text))).
  unfold JSON.fuel_for. pose proof (skip_ws_length text). lia.
Qed.

(** A parser never builds [undefined], nor an array holding it. *)
Lemma parsers_build_values (fuel : nat) :
  (forall s v rest, JSON.value_at fuel s = JSON.Parsed v rest ->
     v <> VUndefined /\ without_undefined v)
  /\ (forall s acc v rest, JSON.elements fuel s acc = JSON.Parsed v rest ->
        Forall (fun x => x <> VUndefined) acc ->
        v <> VUndefined /\ without_undefined v)
  /\ (forall s acc v rest, JSON.members fuel s acc = JSON.Parsed v rest ->
        v <> VUndefined /\ without_undefined v).
Proof.
  induction fuel as [|fuel (IHv & IHe & IHm)];
    [repeat split; intros; discriminate|].
  split; [|split].
  - intros s v rest Hs. cbn [JSON.value_at] in Hs.
    destruct s as [|c r]; [discriminate|].
    destruct (c =? 91).
    { destruct (JSON.skip_ws r) as [|c' r'] eqn:Er; [discriminate|].
      destruct (c' =? 93).
      - injection Hs as <- _. split; [discriminate|constructor].
      - apply IHe in Hs; [exact Hs|constructor]. }
    destruct (c =? 123).
    { destruct (JSON.skip_ws r) as [|c' r'] eqn:Er; [discriminate|].
      destruct (c' =? 125).
      - injection Hs as <- _. split; [discriminate|exact I].
      - apply IHm in Hs. exact Hs. }
    destruct (c =? 34).
    { destruct (JSON.string_body r) as [[str r']|]; [|discriminate].
      injection Hs as <- _. split; [discriminate|exact I]. }
    destruct (starts_with (lit "true") (c :: r));
      [injection Hs as <- _; split; [discriminate|exact I]|].
    destruct (starts_with (lit "false") (c :: r));
      [injection Hs as <- _; split; [discriminate|exact I]|].
    destruct (starts_with (lit "null") (c :: r));
      [injection Hs as <- _; split; [discriminate|exact I]|].
    destruct (JSON.number_literal (c :: r)) as [[n r']|]; [|discriminate].
    injection Hs as <- _. split; [discriminate|exact I].
  - intros s acc v rest Hs Hacc. cbn [JSON.elements] in Hs.
    destruct (JSON.value_at fuel s) as [x r| |] eqn:Ev; try discriminate.
    apply IHv in Ev as [Ev _].
    destruct (JSON.skip_ws r) as [|c r'] eqn:Er; [discriminate|].
    destruct (c =? 44).
    + apply IHe in Hs; [exact Hs|]. constructor; assumption.
    + destruct (c =? 93); [|discriminate].
      injection Hs as <- _. split; [discriminate|].
      apply (Forall_rev (l := x :: acc)). constructor; assumption.
  - intros s acc v rest Hs. cbn [JSON.members] in Hs.
    destruct s as [|c r]; [discriminate|].
    destruct (c =? 34); [|discriminate].
    destruct (JSON.string_body r) as [[key r1]|]; [|discriminate].
    destruct (JSON.skip_ws r1) as [|c1 r2]; [discriminate|].
    destruct (c1 =? 58); [|discriminate].
    destruct (JSON.value_at fuel (JSON.skip_ws r2)) as [x r3| |];
      try discriminate.
    destruct (JSON.skip_ws r3) as [|c2 r4]; [discriminate|].
    destruct (c2 =? 44).
    + apply IHm in Hs. exact Hs.
    + destruct (c2 =? 125); [|discriminate].
      injection Hs as <- _. split; [discriminate|exact I].
Qed.

(** The elements of an array that [JSON.parse] returns are JSON values:
    none is [undefined]. *)
Lemma parsed_array_elements (text : jsstring) (items : list value) :
  JSON.parse text = inr (VArray items) ->
  Forall (fun x => x <> VUndefined) items.
Proof.
  unfold JSON.parse. intros Hp.
  destruct (JSON.value_at (JSON.fuel_for text) (JSON.skip_ws text))
    as [v rest| |] eqn:Ev; try discriminate.
  destruct (JSON.skip_ws rest); [|discriminate].
  injection Hp as ->.
  apply (proj1 (parsers_build_values _)) in Ev as [_ Hv]. exact Hv.
Qed.

(** ** Running programs *)

Lemma run_bind {A B : Type} (w : world) (m : Prog A) (f : A -> Prog B) :
  forall h,
    run w h (bind m f)
    = match run w h m with
      | (inr a, h') => run w h' (f a)
      | (inl e, h') => (inl e, h')
      end.
Proof.
  induction m as [a|e|request k IH|to args k IH|k IH]; intros h; simpl;
    try reflexivity; apply IH.
Qed.

Lemma run_try_catch {A : Type} (w : world) (m : Prog A) (handler : exn -> Prog A) :
  forall h,
    run w h (try_catch m handler)
    = match run w h m with
      | (inr a, h') => (inr a, h')
      | (inl e, h') => run w h' (handler e)
      end.
Proof.
  induction m as [a|e|request k IH|to args k IH|k IH]; intros h; simpl;
    try reflexivity; apply IH.
Qed.

Lemma run_lift {A : Type} (w : world) (h : history) (r : result A) :
  run w h (lift r) = (r, h).
Proof. destruct r; reflexivity. Qed.

Lemma no_post_bind {A B : Type} (m : Prog A) (f : A -> Prog B) :
  no_post m -> (forall a, no_post (f a)) -> no_post (bind m f).
Proof.
  intros Hm Hf.
  induction m as [a|e|request k IH|to args k IH|k IH]; simpl in *; auto;
    try contradiction.
Qed.

Lemma no_post_try_catch {A : Type} (m : Prog A) (handler : exn -> Prog A) :
  no_post m -> (forall e, no_post (handler e)) -> no_post (try_catch m handler).
Proof.
  intros Hm Hh.
  induction m as [a|e|request k IH|to args k IH|k IH]; simpl in *; auto;
    try contradiction.
Qed.

Lemma no_post_lift {A : Type} (r : result A) : no_post (lift r).
Proof. destruct r; exact I. Qed.

(** A program without upstream call leaves the list of requests as it
    was, whatever the world. *)
Lemma no_post_requests {A : Type} (w : world) (m : Prog A) :
  no_post m -> forall h, requests (snd (run w h m)) = requests h.
Proof.
  induction m as [a|e|request k IH|to args k IH|k IH]; simpl; intros Hm h;
    try reflexivity.
  - contradiction.
  - rewrite IH by exact Hm. reflexivity.
  - rewrite IH by apply Hm. reflexivity.
Qed.

Lemma console_only_bind {A B : Type} (m : Prog A) (f : A -> Prog B) :
  console_only m -> (forall a, console_only (f a)) -> console_only (bind m f).
Proof.
  intros Hm Hf.
  induction m as [a|e|request k IH|to args k IH|k IH]; simpl in *; auto;
    try contradiction.
Qed.

Lemma console_only_try_catch {A : Type} (m : Prog A) (handler : exn -> Prog A) :
  console_only m -> (forall e, console_only (handler e)) ->
  console_only (try_catch m handler).
Proof.
  intros Hm Hh.
  induction m as [a|e|request k IH|to args k IH|k IH]; simpl in *; auto;
    try contradiction.
Qed.

Lemma console_only_lift {A : Type} (r : result A) : console_only (lift r).
Proof. destruct r; exact I. Qed.

(** A program that only writes to the console returns the same in every
    world and after every history, and neither calls the upstream service
    nor reads the clock. *)
Lemma console_only_run {A : Type} (m : Prog A) :
  console_only m ->
  forall w1 h1 w2 h2,
    fst (run w1 h1 m) = fst (run w2 h2 m)
    /\ requests (snd (run w1 h1 m)) = requests h1
    /\ clock_reads (snd (run w1 h1 m)) = clock_reads h1.
Proof.
  induction m as [a|e|request k IH|to args k IH|k IH]; simpl; intros Hm;
    try contradiction; intros w1 h1 w2 h2.
  - repeat split.
  - repeat split.
  - destruct (IH Hm w1
                {| requests := requests h1;
                   console := console h1 ++ [(to, args)];
                   clock_reads := clock_reads h1 |}
                w2
                {| requests := requests h2;
                   console := console h2 ++ [(to, args)];
                   clock_reads := clock_reads h2 |}) as (Hr & Hq & Hc).
    repeat split; assumption.
Qed.

(** ** Entries and their fields *)

Lemma property_field (key : jsstring) (item : value) :
  plain_key key = true -> property item key = field key item.
Proof.
  unfold plain_key. intros Hk. apply andb_true_iff in Hk as [Hlen Hidx].
  apply negb_true_iff in Hlen.
  destruct (array_index key) eqn:Eidx; [discriminate|].
  destruct item; simpl; try reflexivity; rewrite Hlen, Eidx; reflexivity.
Qed.

Lemma ToBoolean_js_and (a b : value) :
  ToBoolean (js_and a b) = ToBoolean a && ToBoolean b.
Proof. unfold js_and. destruct (ToBoolean a) eqn:Ha; simpl; auto. Qed.

(** The callback [item => item.a && item.b] throws on [null] and
    [undefined] and tests the two fields of anything else. *)
Lemma both_fields_spec (a b : jsstring) (item : value) :
  plain_key a = true -> plain_key b = true ->
  match both_fields a b item with
  | inl _ => item = VNull \/ item = VUndefined
  | inr v => item <> VNull /\ item <> VUndefined
             /\ ToBoolean v = has_both a b item
  end.
Proof.
  intros Ha Hb. unfold both_fields, has_both.
  rewrite <- (property_field a item Ha), <- (property_field b item Hb).
  destruct item; cbn [Get]; auto;
    match goal with
    | |- context [if ToBoolean ?x then _ else _] =>
        destruct (ToBoolean x) eqn:Hx; cbn [Get];
        repeat split; try discriminate; auto
    end.
Qed.

(** [every] with that callback succeeds exactly on the arrays all of whose
    elements have both fields; a [null] element makes it throw. *)
Lemma every_both_fields (a b : jsstring) (items : list value) :
  plain_key a = true -> plain_key b = true ->
  match every (both_fields a b) items with
  | inr true => forallb (has_both a b) items = true
  | _ => forallb (has_both a b) items = false
  end.
Proof.
  intros Ha Hb. induction items as [|item more IH]; simpl; [reflexivity|].
  pose proof (both_fields_spec a b item Ha Hb) as Hitem.
  destruct (both_fields a b item) as [e|v].
  - destruct Hitem as [-> | ->]; reflexivity.
  - destruct Hitem as (_ & _ & Hv). rewrite <- Hv.
    destruct (ToBoolean v); simpl; [exact IH|reflexivity].
Qed.

(** [filter] with that callback keeps the elements that have both fields,
    when no element is [null]. *)
Lemma filter_items_both_fields (a b : jsstring) (items : list value) :
  plain_key a = true -> plain_key b = true ->
  Forall (fun x => x <> VUndefined) items ->
  existsb is_null items = false ->
  filter_items (both_fields a b) items = inr (filter (has_both a b) items).
Proof.
  intros Ha Hb Hdef. induction Hdef as [|item more Hitem Hmore IH]; simpl;
    [reflexivity|].
  intros Hnull. apply orb_false_iff in Hnull as [Hn Hrest].
  pose proof (both_fields_spec a b item Ha Hb) as Hspec.
  destruct (both_fields a b item) as [e|v].
  - destruct Hspec as [-> | ->]; [discriminate|contradiction].
  - destruct Hspec as (_ & _ & Hv). rewrite IH by exact Hrest.
    rewrite Hv. reflexivity.
Qed.

(** ** The glossary normaliser *)

Lemma generateGlossary_normalize_shape (response : value) :
  console_only (generateGlossary_normalize response).
Proof.
  unfold generateGlossary_normalize.
  apply console_only_try_catch; [|intros e; exact I].
  apply console_only_bind; [apply console_only_lift|]. intros text.
  apply console_only_bind; [apply console_only_lift|]. intros glossary.
  apply console_only_bind; [apply console_only_lift|]. intros [|]; exact I.
Qed.

(** On a string, the normaliser returns the glossary row of the table and
    never throws. *)
Lemma generateGlossary_normalize_row (raw : jsstring) (w : world) (h : history) :
  fst (run w h (generateGlossary_normalize (VString raw))) = inr (glossary_row raw).
Proof.
  unfold generateGlossary_normalize, glossary_row.
  rewrite run_try_catch. simpl string_receiver. simpl lift at 1.
  cbn [bind]. rewrite run_bind, run_lift.
  destruct (JSON.parse (clean_response raw)) as [e|glossary]; [reflexivity|].
  rewrite run_bind, run_lift.
  destruct glossary; try reflexivity.
  pose proof (every_both_fields (lit "term") (lit "definition") items
                eq_refl eq_refl) as Hevery.
  destruct (every (both_fields (lit "term") (lit "definition")) items)
    as [e|[|]]; rewrite Hevery; reflexivity.
Qed.


(** C9.  When the stripped completion parses to an array, the normaliser
    returns that very array, elements and extra fields untouched, if every
    element has truthy [term] and [definition] fields, and the empty array
    if some element has a falsy or absent one: nothing is filtered element
    by element. *)
Theorem C9_glossary_all_or_nothing (raw : jsstring)
    (items : list value) (w : world) (h : history) :
  JSON.parse (clean_response raw) = inr (VArray items) ->
  fst (run w h (generateGlossary_normalize (VString raw)))
  = inr (if forallb (has_both (lit "term") (lit "definition")) items
         then VArray items
         else VArray []).
Proof.
  intros Hparse. rewrite generateGlossary_normalize_row.
  unfold glossary_row. rewrite Hparse. reflexivity.
Qed.

(** A numeric term, a definition of one space and an extra field: the
    entry is returned as parsed. *)
Lemma C9_glossary_all_or_nothing_witness :
  let raw := qlit "[{'term':5,'definition':' ','note':true}]" in
  let entry := VObject
      [ (lit "term", VNumber (number_of_nat 5));
        (lit "definition", VString (lit " "));
        (lit "note", VBool true) ] in
  JSON.parse (clean_response raw) = inr (VArray [entry])
  /\ fst (run offline quiet
            (generateGlossary_normalize (VString raw)))
     = inr (VArray [entry]).
Proof.
  intros raw entry. split; [vm_compute; reflexivity|].
  exact (C9_glossary_all_or_nothing raw [entry] offline quiet
           ltac:(vm_compute; reflexivity)).
Defined.

(** One entry without definition empties the whole result. *)
Example glossary_one_bad_entry :
  glossary_row (qlit "[{'term':'a','definition':'b'},{'term':'c'}]") = VArray [].
Proof. vm_compute. reflexivity. Qed.

(** ** The grammar-errors normaliser *)

Lemma findGrammarErrors_normalize_shape (response : value) :
  console_only (findGrammarErrors_normalize response).
Proof.
  unfold findGrammarErrors_normalize.
  apply console_only_try_catch; [|intros e; exact I].
  apply console_only_bind; [apply console_only_lift|]. intros text.
  apply console_only_bind; [apply console_only_lift|]. intros errors.
  destruct errors; try exact I.
  apply console_only_bind; [apply console_only_lift|]. intros kept. exact I.
Qed.

Lemma findGrammarErrors_normalize_returns (raw : jsstring) (w : world) (h : history) :
  fst (run w h (findGrammarErrors_normalize (VString raw)))
  = inr (match JSON.parse (clean_response raw) with
         | inr (VArray items) =>
             match filter_items (both_fields (lit "error") (lit "correction")) items with
             | inr kept => VArray kept
             | inl _ => VArray []
             end
         | _ => VArray []
         end).
Proof.
  unfold findGrammarErrors_normalize.
  rewrite run_try_catch. simpl string_receiver. simpl lift at 1.
  cbn [bind]. rewrite run_bind, run_lift.
  destruct (JSON.parse (clean_response raw)) as [e|errors]; [reflexivity|].
  destruct errors; try reflexivity.
  rewrite run_bind, run_lift.
  destruct (filter_items (both_fields (lit "error") (lit "correction")) items);
    reflexivity.
Qed.

(** C10, as stated, fails: the completion
    [[{"error":"a","correction":"b"},null]] parses to an array of two
    elements of which the first has both fields, yet the result is the
    empty array. *)
Lemma C10_counterexample :
  let raw := qlit "[{'error':'a','correction':'b'},null]" in
  let entry := VObject [ (lit "error", VString (lit "a"));
                         (lit "correction", VString (lit "b")) ] in
  JSON.parse (clean_response raw) = inr (VArray [entry; VNull])
  /\ filter (has_both (lit "error") (lit "correction")) [entry; VNull] = [entry]
  /\ fst (run offline quiet
            (findGrammarErrors_normalize (VString raw)))
     = inr (VArray []).
Proof. repeat split; vm_compute; reflexivity. Qed.

(** C10, amended.  For every raw completion string the normaliser of
    [findGrammarErrors] returns an array, without throwing and without any
    upstream call.  When the stripped completion does not parse, or parses
    to something that is not an array, the array is empty; when it parses
    to an array none of whose elements is [null], the result keeps exactly
    the elements with truthy [error] and [correction] fields, in order. *)
Theorem C10_grammar_errors_normalizer (raw : jsstring)
    (w : world) (h : history) :
  exists kept,
    fst (run w h (findGrammarErrors_normalize (VString raw))) = inr (VArray kept)
    /\ requests (snd (run w h (findGrammarErrors_normalize (VString raw))))
       = requests h
    /\ match JSON.parse (clean_response raw) with
       | inr (VArray items) =>
           existsb is_null items = false ->
           kept = filter (has_both (lit "error") (lit "correction")) items
       | _ => kept = []
       end.
Proof.
  pose proof (findGrammarErrors_normalize_returns raw w h) as Hrun.
  pose proof (console_only_run _ (findGrammarErrors_normalize_shape (VString raw))
                w h w h) as (_ & Hreq & _).
  destruct (JSON.parse (clean_response raw)) as [e|errors] eqn:Hparse.
  { exists []. repeat split; assumption. }
  destruct errors; try (exists []; repeat split; assumption).
  destruct (filter_items (both_fields (lit "error") (lit "correction")) items)
    as [e|kept] eqn:Hfilter.
  - exists []. repeat split; try assumption. intros Hnull.
    rewrite (filter_items_both_fields (lit "error") (lit "correction") items
               eq_refl eq_refl (parsed_array_elements _ _ Hparse) Hnull)
      in Hfilter.
    discriminate.
  - exists kept. repeat split; try assumption. intros Hnull.
    rewrite (filter_items_both_fields (lit "error") (lit "correction") items
               eq_refl eq_refl (parsed_array_elements _ _ Hparse) Hnull)
      in Hfilter.
    congruence.
Qed.

(** An array of three elements, none [null]: the one entry with both
    fields is kept. *)
Lemma C10_grammar_errors_normalizer_witness :
  let raw := qlit "[{'error':'a','correction':'b'},{'error':'c'},5]" in
  exists kept,
    fst (run offline quiet
           (findGrammarErrors_normalize (VString raw)))
    = inr (VArray kept)
    /\ kept = [ VObject [ (lit "error", VString (lit "a"));
                          (lit "correction", VString (lit "b")) ] ].
Proof.
  intros raw.
  destruct (C10_grammar_errors_normalizer raw offline quiet)
    as (kept & Hrun & _ & Hkept).
  exists kept. split; [exact Hrun|].
  exact (Hkept eq_refl).
Defined.

(** ** The upstream adapter *)

Section Adapter.
Context `{Engine}.

(** Reading [choices[0].message.content] only ever fails with a
    [TypeError], for which the adapter has no upstream message. *)
Lemma first_choice_content_failure (response_data : value) (e : exn) :
  first_choice_content response_data = inl e ->
  upstream_failure e = Error (lit "AI service error").
Proof.
  assert (HGet : forall v key e', Get v key = inl e' ->
                   exists why, e' = TypeError why).
  { intros v key e' Hg. destruct v; simpl in Hg; try discriminate;
      injection Hg as <-; eexists; reflexivity. }
  unfold first_choice_content. intros Hfail.
  assert (Hty : exists why, e = TypeError why).
  { destruct (Get response_data (lit "choices")) as [e1|choices] eqn:E1.
    { injection Hfail as <-. eapply HGet. exact E1. }
    destruct (Get choices (lit "0")) as [e2|choice] eqn:E2.
    { injection Hfail as <-. eapply HGet. exact E2. }
    destruct (Get choice (lit "message")) as [e3|message] eqn:E3.
    { injection Hfail as <-. eapply HGet. exact E3. }
    eapply HGet. exact Hfail. }
  destruct Hty as (why & ->). reflexivity.
Qed.

Lemma callGroqAPI_handler (error : exn) (w : world) (h : history) :
  fst (run w h
         (console_error [ VString (lit "Groq API Error:");
                          js_or (exn_response_data error)
                                (VString (exn_message error)) ] ;;
          text <- lift (ToString (js_or (upstream_error_message error)
                                        (VString (lit "AI service error")))) ;;
          (Throw (Error text) : Prog value)))
  = inl (upstream_failure error).
Proof.
  unfold console_error. cbn [bind]. cbn [run].
  rewrite run_bind, run_lift. unfold upstream_failure, js_or.
  destruct (ToBoolean (upstream_error_message error)).
  - destruct (ToString (upstream_error_message error)); reflexivity.
  - reflexivity.
Qed.

Lemma callGroqAPI_shape (systemPrompt : jsstring) (userContent : value)
    (apiKey : jsstring) :
  exists k,
    callGroqAPI systemPrompt userContent apiKey
    = AxiosPost (chat_request systemPrompt userContent apiKey) k
    /\ forall s, no_post (k s).
Proof.
  unfold callGroqAPI, axios_post. cbn [bind try_catch].
  eexists. split; [reflexivity|].
  intros [response_data|error]; cbn [bind try_catch].
  - apply no_post_try_catch; [apply no_post_lift|].
    intros e. cbn. apply no_post_bind; [apply no_post_lift|]. intros; exact I.
  - cbn. apply no_post_bind; [apply no_post_lift|]. intros; exact I.
Qed.

(** One request, and no other, in every world. *)
Lemma callGroqAPI_requests (systemPrompt : jsstring) (userContent : value)
    (apiKey : jsstring) (w : world) (h : history) :
  requests (snd (run w h (callGroqAPI systemPrompt userContent apiKey)))
  = requests h ++ [chat_request systemPrompt userContent apiKey].
Proof.
  destruct (callGroqAPI_shape systemPrompt userContent apiKey) as (k & -> & Hk).
  cbn [run]. rewrite no_post_requests by apply Hk. reflexivity.
Qed.

Lemma callGroqAPI_result (systemPrompt : jsstring) (userContent : value)
    (apiKey : jsstring) (w : world) (h : history) :
  fst (run w h (callGroqAPI systemPrompt userContent apiKey))
  = match upstream w (List.length (requests h))
            (chat_request systemPrompt userContent apiKey) with
    | Fulfilled response_data =>
        match first_choice_content response_data with
        | inr content => inr content
        | inl e => inl (upstream_failure e)
        end
    | Rejected error => inl (upstream_failure error)
    end.
Proof.
  unfold callGroqAPI, axios_post. cbn [bind try_catch run].
  destruct (upstream w (List.length (requests h))
              (chat_request systemPrompt userContent apiKey))
    as [response_data|error]; cbn [bind try_catch].
  - rewrite run_try_catch, run_lift.
    destruct (first_choice_content response_data) as [e|content];
      [|reflexivity].
    apply callGroqAPI_handler.
  - apply callGroqAPI_handler.
Qed.

End Adapter.

(** C5, as stated, fails: when the first choice of the response has a
    message without [content], the adapter does not fail; it returns
    [undefined]. *)
Lemma C5_counterexample :
  let response_data := completion (VObject []) in
  upstream (answering response_data) 0
    (chat_request summarize_prompt (VString (lit "note")) (lit "key"))
  = Fulfilled response_data
  /\ fst (run (answering response_data) quiet
            (@callGroqAPI sample_engine summarize_prompt
               (VString (lit "note")) (lit "key")))
     = inr VUndefined.
Proof. split; vm_compute; reflexivity. Qed.

(** C5, amended.  Every invocation of [callGroqAPI] issues exactly one
    request, in every world, and none after it, so nothing is retried.  If
    the exchange is fulfilled and [choices[0].message] can be read, it
    returns whatever the [content] field of that message holds ([undefined]
    when the field is absent); if [choices], the first choice or its
    message is missing, it fails with the generic message
    ["AI service error"].  If the exchange is rejected it fails: with the
    message of the upstream error body when that is a non-empty string,
    with the generic message when the body has no message, an empty one, or
    there is no response at all. *)
Theorem C5_callGroqAPI_single_attempt `{Engine} (systemPrompt : jsstring)
    (userContent : value) (apiKey : jsstring) (w : world) (h : history) :
  let request := chat_request systemPrompt userContent apiKey in
  let outcome := run w h (callGroqAPI systemPrompt userContent apiKey) in
  requests (snd outcome) = requests h ++ [request]
  /\ match upstream w (List.length (requests h)) request with
     | Fulfilled response_data =>
         match first_choice_content response_data with
         | inr content => fst outcome = inr content
         | inl _ => fst outcome = inl (Error (lit "AI service error"))
         end
     | Rejected error => fst outcome = inl (upstream_failure error)
     end
  /\ (forall m c text,
        upstream_failure (AxiosError m (Some (error_body (VString (c :: text)))))
        = Error (c :: text))
  /\ (forall m, upstream_failure (AxiosError m (Some (error_body (VString []))))
                = Error (lit "AI service error"))
  /\ (forall m, upstream_failure (AxiosError m (Some (VObject [])))
                = Error (lit "AI service error"))
  /\ (forall m, upstream_failure (AxiosError m None)
                = Error (lit "AI service error")).
Proof.
  intros request outcome.
  split; [apply callGroqAPI_requests|].
  split; [|repeat split; reflexivity].
  subst outcome request. rewrite callGroqAPI_result.
  destruct (upstream w (List.length (requests h))
              (chat_request systemPrompt userContent apiKey))
    as [response_data|error]; [|reflexivity].
  destruct (first_choice_content response_data) as [e|content] eqn:Hc;
    [|reflexivity].
  rewrite (first_choice_content_failure _ _ Hc). reflexivity.
Qed.

(** A rejected credential: the message of the upstream error body is the
    message of the failure. *)
Example rejected_credential :
  fst (run (refusing (error_body (VString (lit "Invalid API Key")))) quiet
         (@callGroqAPI sample_engine grammar_prompt
            (VString (lit "note")) (lit "gsk_wrong")))
  = inl (Error (lit "Invalid API Key")).
Proof. vm_compute. reflexivity. Qed.

(** ** The pass-through tasks *)

(** C6.  In every world, [summarizeText] and [checkGrammar] end as their
    call of [callGroqAPI] ends: they return the completion it returns,
    unchanged, and throw what it throws; nothing is substituted. *)
Theorem C6_pass_through `{Engine} (content : value) (apiKey : jsstring)
    (w : world) (h : history) :
  run w h (summarizeText content apiKey)
  = run w h (callGroqAPI summarize_prompt content apiKey)
  /\ run w h (checkGrammar content apiKey)
     = run w h (callGroqAPI grammar_prompt content apiKey).
Proof.
  unfold summarizeText, checkGrammar. rewrite !run_bind.
  split.
  - destruct (run w h (callGroqAPI summarize_prompt content apiKey))
      as [[e|response] h']; reflexivity.
  - destruct (run w h (callGroqAPI grammar_prompt content apiKey))
      as [[e|response] h']; reflexivity.
Qed.

(** A completion that comes back from upstream is the result of both. *)
Example summarize_returns_completion :
  let w := answering (completion (VObject [ (lit "content", VString (lit "Short.")) ])) in
  fst (run w quiet (@summarizeText sample_engine (VString (lit "note")) (lit "key")))
  = inr (VString (lit "Short."))
  /\ fst (run w quiet (@checkGrammar sample_engine (VString (lit "note")) (lit "key")))
     = inr (VString (lit "Short.")).
Proof. split; vm_compute; reflexivity. Qed.

(** ** Determinism *)

Lemma normalize_shape (k : task_kind) (raw : jsstring) :
  console_only (normalize k (VString raw)).
Proof.
  destruct k; cbn [normalize]; try exact I.
  apply generateGlossary_normalize_shape.
Qed.

(** C7.  For every task kind and every raw completion, the normaliser
    returns the same result in any two worlds and after any two histories;
    it makes no upstream call and does not read the clock, its only effect
    being a line on the console.  Each exported function is its upstream
    call followed by its normaliser. *)
Theorem C7_normalization_deterministic (k : task_kind) (raw : jsstring)
    (w1 w2 : world) (h1 h2 : history) :
  fst (run w1 h1 (normalize k (VString raw)))
  = fst (run w2 h2 (normalize k (VString raw)))
  /\ requests (snd (run w1 h1 (normalize k (VString raw)))) = requests h1
  /\ clock_reads (snd (run w1 h1 (normalize k (VString raw)))) = clock_reads h1
  /\ (forall (E : Engine) content apiKey,
        executor k content apiKey
        = bind (callGroqAPI (prompt_of k) content apiKey) (normalize k)).
Proof.
  destruct (console_only_run _ (normalize_shape k raw) w1 h1 w2 h2)
    as (Hfst & Hreq & Hclock).
  repeat split; try assumption.
  intros E content apiKey. destruct k; reflexivity.
Qed.

(** ** The route [POST /api/ai] *)

Example falsy_values :
  ToBoolean (VString (lit "")) = false
  /\ ToBoolean (VNumber (number_of_nat 0)) = false
  /\ ToBoolean (VBool false) = false
  /\ ToBoolean VNull = false
  /\ ToBoolean VUndefined = false.
Proof. repeat split. Qed.

Lemma number_of_nat_exceeds_50000 (n : nat) :
  number_exceeds_50000 (number_of_nat n) = (50000 <? Z.of_nat n)%Z.
Proof.
  unfold number_exceeds_50000, number_of_nat. cbn [negative exponent digits].
  change (0 <=? 0)%Z with true. cbv iota.
  rewrite nat_N_Z, Z.pow_0_r, Z.mul_1_r. reflexivity.
Qed.

Lemma is_task_name_false (task : value) :
  is_task_name task = false ->
  strict_equals_string task (lit "summarize") = false
  /\ strict_equals_string task (lit "tags") = false
  /\ strict_equals_string task (lit "grammar") = false
  /\ strict_equals_string task (lit "glossary") = false.
Proof.
  unfold is_task_name, task_names. cbn [map existsb task_name].
  intros Hk. repeat (apply orb_false_iff in Hk as [? Hk]). auto.
Qed.

Section Route.
Context `{Engine}.
Variable GROQ_API_KEY : option jsstring.

Lemma dispatch_unknown_task (task content : value) (apiKey : jsstring) :
  is_task_name task = false ->
  dispatch task content apiKey
  = (shown <- lift (ToString task) ;;
     Return (inl (failure 400 (unknown_task_message shown)))).
Proof.
  intros Hk. apply is_task_name_false in Hk as (H1 & H2 & H3 & H4).
  unfold dispatch. rewrite H1, H2, H3, H4. reflexivity.
Qed.

(** With a task outside the four names the handler holds no upstream
    call. *)
Lemma post_api_ai_unknown_task_shape (task content : value) :
  is_task_name task = false ->
  no_post (post_api_ai GROQ_API_KEY task content).
Proof.
  intros Hk. unfold post_api_ai.
  apply no_post_try_catch; [|intros e now; exact I].
  destruct (negb (ToBoolean task) || negb (ToBoolean content)); [exact I|].
  destruct (configured_key GROQ_API_KEY) as [apiKey|]; [|exact I].
  apply no_post_bind; [apply no_post_lift|]. intros length.
  apply no_post_bind; [apply no_post_lift|]. intros [|]; [exact I|].
  apply no_post_bind; [intros now; exact I|]. intros now.
  apply no_post_bind; [apply no_post_lift|]. intros shown_task.
  apply no_post_bind; [apply no_post_lift|]. intros length'.
  apply no_post_bind; [apply no_post_lift|]. intros shown_length.
  apply no_post_bind; [exact I|]. intros _.
  rewrite dispatch_unknown_task by exact Hk.
  apply no_post_bind.
  - apply no_post_bind; [apply no_post_lift|]. intros; exact I.
  - intros [response|result]; [exact I|].
    apply no_post_bind; [intros now'; exact I|]. intros now'.
    apply no_post_bind; [apply no_post_lift|]. intros shown.
    apply no_post_bind; [exact I|]. intros _. exact I.
Qed.

Lemma post_api_ai_guards (task content : jsstring) (w : world) (h : history) :
  is_task_name (VString task) = false ->
  fst (run w h (post_api_ai GROQ_API_KEY (VString task) (VString content)))
  = inr (guards GROQ_API_KEY task content
           (failure 400 (unknown_task_message task))).
Proof.
  intros Hk. unfold post_api_ai, guards. rewrite run_try_catch.
  change (ToBoolean (VString task)) with (non_empty task).
  change (ToBoolean (VString content)) with (non_empty content).
  destruct (negb (non_empty task) || negb (non_empty content)); [reflexivity|].
  destruct (configured_key GROQ_API_KEY) as [apiKey|]; [|reflexivity].
  rewrite run_bind, run_lift.
  change (Get (VString content) (lit "length"))
    with (inr (VNumber (number_of_nat (str_length content))) : result value).
  cbv iota. rewrite run_bind, run_lift. cbn [exceeds_50000].
  rewrite number_of_nat_exceeds_50000.
  destruct (50000 <? Z.of_nat (str_length content))%Z; [reflexivity|].
  rewrite run_bind. unfold now_ISO at 1. cbn [run].
  rewrite run_bind, run_lift. cbn [ToString].
  rewrite run_bind, run_lift.
  rewrite run_bind, run_lift. cbn [ToString].
  rewrite run_bind. unfold console_log at 1. cbn [run].
  rewrite dispatch_unknown_task by exact Hk.
  rewrite run_bind, run_bind, run_lift. cbn [ToString run]. reflexivity.
Qed.

(** A falsy task or content ends the handler at its first guard. *)
Lemma post_api_ai_missing_fields (task content : value) (w : world) (h : history) :
  ToBoolean task = false \/ ToBoolean content = false ->
  run w h (post_api_ai GROQ_API_KEY task content)
  = (inr (failure 400 missing_fields_message), h).
Proof.
  intros Hfalsy. unfold post_api_ai.
  assert (Hguard : negb (ToBoolean task) || negb (ToBoolean content) = true).
  { destruct Hfalsy as [-> | ->]; [reflexivity|apply orb_true_r]. }
  rewrite Hguard. reflexivity.
Qed.

End Route.



(** Hence an executor is only ever invoked, and the upstream service only
    ever called, with a truthy task and a truthy content. *)
Lemma upstream_call_needs_both_fields `{Engine} (GROQ_API_KEY : option jsstring)
    (task content : value) (w : world) (h : history) :
  requests (snd (run w h (post_api_ai GROQ_API_KEY task content))) <> requests h ->
  ToBoolean task = true /\ ToBoolean content = true.
Proof.
  intros Hcall.
  destruct (ToBoolean task) eqn:Ht, (ToBoolean content) eqn:Hc; auto;
    exfalso; apply Hcall; rewrite post_api_ai_missing_fields; auto.
Qed.

(** On the fields of a parsed body: a content string of more than 50,000
    code units never gets past the guards of the handler, whatever the
    task. *)
Lemma post_api_ai_long_content `{Engine} (GROQ_API_KEY : option jsstring)
    (task : value) (content : jsstring) (w : world) (h : history) :
  (50000 < Z.of_nat (str_length content))%Z ->
  run w h (post_api_ai GROQ_API_KEY task (VString content))
  = (inr (if negb (ToBoolean task) then failure 400 missing_fields_message
          else match configured_key GROQ_API_KEY with
               | None => failure 500 not_configured_message
               | Some _ => failure 400 too_large_message
               end), h).
Proof.
  intros Hlong. destruct (ToBoolean task) eqn:Htask; cbn [negb].
  2:{ apply (post_api_ai_missing_fields GROQ_API_KEY). left. exact Htask. }
  unfold post_api_ai. rewrite Htask.
  assert (Hcontent : ToBoolean (VString content) = true).
  { destruct content; [discriminate Hlong|reflexivity]. }
  rewrite Hcontent. cbn [negb orb]. rewrite run_try_catch.
  destruct (configured_key GROQ_API_KEY) as [apiKey|]; [|reflexivity].
  rewrite run_bind, run_lift.
  change (Get (VString content) (lit "length"))
    with (inr (VNumber (number_of_nat (str_length content))) : result value).
  cbv iota. rewrite run_bind, run_lift. cbn [exceeds_50000].
  rewrite number_of_nat_exceeds_50000.
  apply Z.ltb_lt in Hlong. rewrite Hlong. reflexivity.
Qed.

(** An upstream failure reaches the client as a 500 that echoes the task,
    after the one request. *)
Example route_reports_upstream_failure :
  let outcome :=
    run (refusing (error_body (VString (lit "Invalid API Key")))) quiet
      (@post_api_ai sample_engine (Some (lit "gsk_wrong"))
         (VString (lit "grammar")) (VString (lit "Their is a eror")))
  in
  fst outcome
  = inr {| status := 500;
           body := VObject [ (lit "success", VBool false);
                             (lit "error", VString (lit "Invalid API Key"));
                             (lit "task", VString (lit "grammar")) ] |}
  /\ List.length (requests (snd outcome)) = 1%nat.
Proof. split; vm_compute; reflexivity. Qed.

(** Without a key the route answers 500 before any network attempt. *)
Example route_without_key :
  run offline quiet
    (@post_api_ai sample_engine None
       (VString (lit "summarize")) (VString (lit "A note.")))
  = (inr (failure 500 not_configured_message), quiet).
Proof. vm_compute. reflexivity. Qed.

(** * Further properties of the code *)

(** ** Ends and upstream calls of programs *)

Lemma ends_run {A : Type} (P : A -> Prop) (Q : exn -> Prop) (m : Prog A) :
  ends P Q m ->
  forall w h, match fst (run w h m) with
              | inr a => P a
              | inl e => Q e
              end.
Proof.
  induction m as [a|e|request k IH|to args k IH|k IH]; simpl; intros Hm w h.
  - exact Hm.
  - exact Hm.
  - apply IH, Hm.
  - apply IH, Hm.
  - apply IH, Hm.
Qed.

Lemma ends_weaken {A : Type} (P P' : A -> Prop) (Q Q' : exn -> Prop) (m : Prog A) :
  (forall a, P a -> P' a) -> (forall e, Q e -> Q' e) ->
  ends P Q m -> ends P' Q' m.
Proof.
  intros HP HQ.
  induction m as [a|e|request k IH|to args k IH|k IH]; simpl; auto.
Qed.

Lemma ends_anyhow {A : Type} (m : Prog A) :
  ends (fun _ => True) (fun _ => True) m.
Proof.
  induction m as [a|e|request k IH|to args k IH|k IH]; simpl; auto.
Qed.

Lemma ends_bind {A B : Type} (P' : A -> Prop) (P : B -> Prop) (Q : exn -> Prop)
    (m : Prog A) (f : A -> Prog B) :
  ends P' Q m -> (forall a, P' a -> ends P Q (f a)) -> ends P Q (bind m f).
Proof.
  intros Hm Hf.
  induction m as [a|e|request k IH|to args k IH|k IH]; simpl in *; auto.
Qed.

Lemma ends_try_catch {A : Type} (P : A -> Prop) (Q' Q : exn -> Prop)
    (m : Prog A) (handler : exn -> Prog A) :
  ends P Q' m -> (forall e, Q' e -> ends P Q (handler e)) ->
  ends P Q (try_catch m handler).
Proof.
  intros Hm Hh.
  induction m as [a|e|request k IH|to args k IH|k IH]; simpl in *; auto.
Qed.

Lemma ends_lift {A : Type} (P : A -> Prop) (Q : exn -> Prop) (r : result A) :
  match r with inr a => P a | inl e => Q e end -> ends P Q (lift r).
Proof. destruct r; simpl; auto. Qed.

Lemma console_only_no_post {A : Type} (m : Prog A) : console_only m -> no_post m.
Proof.
  induction m as [a|e|request k IH|to args k IH|k IH]; simpl; auto;
    contradiction.
Qed.

Lemma posts_only_no_post {A : Type} (request : axios_request) (m : Prog A) :
  no_post m -> posts_only request m.
Proof.
  induction m as [a|e|r k IH|to args k IH|k IH]; simpl; auto; contradiction.
Qed.

Lemma posts_only_bind_after {A B : Type} (request : axios_request)
    (m : Prog A) (f : A -> Prog B) :
  no_post m -> (forall a, posts_only request (f a)) ->
  posts_only request (bind m f).
Proof.
  intros Hm Hf.
  induction m as [a|e|r k IH|to args k IH|k IH]; simpl in *; auto;
    contradiction.
Qed.

Lemma posts_only_bind_before {A B : Type} (request : axios_request)
    (m : Prog A) (f : A -> Prog B) :
  posts_only request m -> (forall a, no_post (f a)) ->
  posts_only request (bind m f).
Proof.
  intros Hm Hf.
  induction m as [a|e|r k IH|to args k IH|k IH]; simpl in *.
  - apply posts_only_no_post, Hf.
  - exact I.
  - destruct Hm as [Hr Hk]. split; [exact Hr|].
    intros s. apply no_post_bind; auto.
  - apply IH, Hm.
  - intros now. apply IH, Hm.
Qed.

Lemma posts_only_try_catch {A : Type} (request : axios_request)
    (m : Prog A) (handler : exn -> Prog A) :
  posts_only request m -> (forall e, no_post (handler e)) ->
  posts_only request (try_catch m handler).
Proof.
  intros Hm Hh.
  induction m as [a|e|r k IH|to args k IH|k IH]; simpl in *.
  - exact I.
  - apply posts_only_no_post, Hh.
  - destruct Hm as [Hr Hk]. split; [exact Hr|].
    intros s. apply no_post_try_catch; auto.
  - apply IH, Hm.
  - intros now. apply IH, Hm.
Qed.

Lemma posts_only_run {A : Type} (request : axios_request) (w : world) (m : Prog A) :
  posts_only request m ->
  forall h, requests (snd (run w h m)) = requests h
            \/ requests (snd (run w h m)) = requests h ++ [request].
Proof.
  induction m as [a|e|r k IH|to args k IH|k IH]; simpl; intros Hm h.
  - left. reflexivity.
  - left. reflexivity.
  - destruct Hm as [-> Hk]. right.
    rewrite no_post_requests by apply Hk. reflexivity.
  - destruct (IH Hm {| requests := requests h;
                       console := console h ++ [(to, args)];
                       clock_reads := clock_reads h |}) as [Hq|Hq];
      rewrite Hq; auto.
  - destruct (IH (clock w (clock_reads h)) (Hm _)
                {| requests := requests h;
                   console := console h;
                   clock_reads := S (clock_reads h) |}) as [Hq|Hq];
      rewrite Hq; auto.
Qed.

(** ** The route, whatever the request *)

Lemma is_task_name_true (task : value) :
  is_task_name task = true -> exists k, task = VString (task_name k).
Proof.
  unfold is_task_name, task_names. cbn [map existsb task_name].
  assert (Hname : forall name, strict_equals_string task name = true ->
                               task = VString name).
  { intros name Hs. destruct task; try discriminate.
    apply str_eqb_eq in Hs. congruence. }
  intros Hk. repeat (apply orb_true_iff in Hk as [Hk|Hk]); try discriminate.
  - exists Summarize. apply Hname, Hk.
  - exists Tags. apply Hname, Hk.
  - exists Grammar. apply Hname, Hk.
  - exists Glossary. apply Hname, Hk.
Qed.

Lemma normalize_console_only (k : task_kind) (response : value) :
  console_only (normalize k response).
Proof.
  destruct k; cbn [normalize]; try exact I.
  - unfold suggestTags_normalize.
    apply console_only_bind; [apply console_only_lift|]. intros text. exact I.
  - apply generateGlossary_normalize_shape.
Qed.

Section RouteShape.
Context `{Engine}.

Lemma callGroqAPI_posts_only (systemPrompt : jsstring) (userContent : value)
    (apiKey : jsstring) :
  posts_only (chat_request systemPrompt userContent apiKey)
    (callGroqAPI systemPrompt userContent apiKey).
Proof.
  destruct (callGroqAPI_shape systemPrompt userContent apiKey) as (k & -> & Hk).
  split; [reflexivity|exact Hk].
Qed.

Lemma executor_posts_only (k : task_kind) (content : value) (apiKey : jsstring) :
  posts_only (chat_request (prompt_of k) content apiKey)
    (executor k content apiKey).
Proof.
  assert (Hexec : executor k content apiKey
                  = bind (callGroqAPI (prompt_of k) content apiKey) (normalize k))
    by (destruct k; reflexivity).
  rewrite Hexec. apply posts_only_bind_before.
  - apply callGroqAPI_posts_only.
  - intros response. apply console_only_no_post, normalize_console_only.
Qed.

Lemma dispatch_known_task (k : task_kind) (content : value) (apiKey : jsstring) :
  dispatch (VString (task_name k)) content apiKey
  = (result <- executor k content apiKey ;; Return (inr result)).
Proof. destruct k; reflexivity. Qed.

(** Past its guards and with a known task, the handler holds the one
    upstream call of the task's executor and no other. *)
Lemma post_api_ai_posts_only (GROQ_API_KEY : option jsstring) (k : task_kind)
    (content : value) :
  match configured_key GROQ_API_KEY with
  | Some apiKey =>
      posts_only (chat_request (prompt_of k) content apiKey)
        (post_api_ai GROQ_API_KEY (VString (task_name k)) content)
  | None => no_post (post_api_ai GROQ_API_KEY (VString (task_name k)) content)
  end.
Proof.
  unfold post_api_ai.
  destruct (configured_key GROQ_API_KEY) as [apiKey|].
  2:{ apply no_post_try_catch; [|intros e now; exact I].
      destruct (negb (ToBoolean (VString (task_name k)))
                || negb (ToBoolean content)); exact I. }
  apply posts_only_try_catch; [|intros e now; exact I].
  destruct (negb (ToBoolean (VString (task_name k))) || negb (ToBoolean content));
    [exact I|].
  apply posts_only_bind_after; [apply no_post_lift|]. intros length.
  apply posts_only_bind_after; [apply no_post_lift|]. intros [|]; [exact I|].
  apply posts_only_bind_after; [intros now; exact I|]. intros now.
  apply posts_only_bind_after; [apply no_post_lift|]. intros shown_task.
  apply posts_only_bind_after; [apply no_post_lift|]. intros length'.
  apply posts_only_bind_after; [apply no_post_lift|]. intros shown_length.
  apply posts_only_bind_after; [exact I|]. intros _.
  rewrite dispatch_known_task.
  apply posts_only_bind_before.
  - apply posts_only_bind_before; [apply executor_posts_only|].
    intros result. exact I.
  - intros [response|result]; [exact I|].
    apply no_post_bind; [intros now'; exact I|]. intros now'.
    apply no_post_bind; [apply no_post_lift|]. intros shown.
    apply no_post_bind; [exact I|]. intros _. exact I.
Qed.

End RouteShape.

(** X1.  Whatever the request, the key and the world, the handler of
    [POST /api/ai] calls the upstream service at most once; and when it
    does, the task is one of the four names, the key is one the guard lets
    through (set, not empty, not the placeholder), the content is truthy,
    and the request is the chat request of that task's prompt with that
    content and that key. *)
Theorem route_calls_upstream_at_most_once `{Engine}
    (GROQ_API_KEY : option jsstring) (task content : value)
    (w : world) (h : history) :
  let after := requests (snd (run w h (post_api_ai GROQ_API_KEY task content))) in
  after = requests h
  \/ exists k apiKey,
       task = VString (task_name k)
       /\ configured_key GROQ_API_KEY = Some apiKey
       /\ ToBoolean content = true
       /\ after = requests h ++ [chat_request (prompt_of k) content apiKey].
Proof.
  intros after. subst after.
  destruct (is_task_name task) eqn:Hname.
  2:{ left. apply no_post_requests.
      apply post_api_ai_unknown_task_shape. exact Hname. }
  apply is_task_name_true in Hname as (k & ->).
  pose proof (post_api_ai_posts_only GROQ_API_KEY k content) as Hshape.
  destruct (configured_key GROQ_API_KEY) as [apiKey|] eqn:Hkey.
  2:{ left. apply no_post_requests. exact Hshape. }
  destruct (posts_only_run _ w _ Hshape h) as [Hq|Hq]; [left; exact Hq|].
  right. exists k, apiKey. repeat split; try assumption.
  apply (upstream_call_needs_both_fields GROQ_API_KEY
           (VString (task_name k)) content w h).
  rewrite Hq. intros Habs.
  apply (f_equal (@List.length axios_request)) in Habs.
  rewrite length_app in Habs. simpl in Habs. lia.
Qed.

Section RouteAnswers.
Context `{Engine}.

Lemma failure_is_answer (task : value) (code : Z) (message : jsstring) :
  code = 400%Z \/ code = 500%Z -> message <> [] ->
  is_answer task (failure code message).
Proof.
  intros Hcode Hmessage. right. split; [exact Hcode|].
  split; [reflexivity|]. exists message. split; [exact Hmessage|reflexivity].
Qed.

Lemma caught_is_answer (task : value) (message : jsstring) :
  is_answer task (caught message task).
Proof.
  right. split; [right; reflexivity|]. split; [reflexivity|].
  unfold caught, response_field, js_or. cbn [body field lookup].
  change (str_eqb (lit "success") (lit "error")) with false.
  change (str_eqb (lit "error") (lit "error")) with true. cbv iota.
  destruct message as [|c message]; cbn [ToBoolean].
  - exists generic_failure_message. split; [discriminate|reflexivity].
  - exists (c :: message). split; [discriminate|reflexivity].
Qed.

Lemma success_is_answer (task result : value) :
  is_answer task (success task result).
Proof. left. repeat split. Qed.

Lemma dispatch_ends (task content : value) (apiKey : jsstring) :
  ends (fun routed => match routed with
                      | inl response => is_answer task response
                      | inr _ => True
                      end)
       (fun _ => True)
       (dispatch task content apiKey).
Proof.
  unfold dispatch.
  repeat match goal with
         | |- ends _ _ (if ?c then _ else _) => destruct c
         end;
    try (eapply ends_bind; [apply ends_anyhow|]; intros result _; exact I).
  eapply ends_bind; [apply ends_anyhow|]. intros shown _.
  apply failure_is_answer; [left; reflexivity|discriminate].
Qed.

(** The handler never throws, and what it returns is an answer. *)
Lemma post_api_ai_ends (GROQ_API_KEY : option jsstring) (task content : value) :
  ends (is_answer task) (fun _ => False) (post_api_ai GROQ_API_KEY task content).
Proof.
  unfold post_api_ai.
  apply (ends_try_catch _ (fun _ => True)).
  2:{ intros e _ now. apply caught_is_answer. }
  destruct (negb (ToBoolean task) || negb (ToBoolean content)).
  { apply failure_is_answer; [left; reflexivity|discriminate]. }
  destruct (configured_key GROQ_API_KEY) as [apiKey|].
  2:{ apply failure_is_answer; [right; reflexivity|discriminate]. }
  eapply ends_bind; [apply ends_anyhow|]. intros length _.
  eapply ends_bind; [apply ends_anyhow|]. intros [|] _.
  { apply failure_is_answer; [left; reflexivity|discriminate]. }
  eapply ends_bind; [apply ends_anyhow|]. intros now _.
  eapply ends_bind; [apply ends_anyhow|]. intros shown_task _.
  eapply ends_bind; [apply ends_anyhow|]. intros length' _.
  eapply ends_bind; [apply ends_anyhow|]. intros shown_length _.
  eapply ends_bind; [apply ends_anyhow|]. intros _ _.
  eapply ends_bind; [apply dispatch_ends|].
  intros [response|result] Hrouted; [exact Hrouted|].
  eapply ends_bind; [apply ends_anyhow|]. intros now' _.
  eapply ends_bind; [apply ends_anyhow|]. intros shown _.
  eapply ends_bind; [apply ends_anyhow|]. intros _ _.
  apply success_is_answer.
Qed.

End RouteAnswers.

(** On the fields of a parsed body, the handler does not throw: it returns
    a response, which is either 200 with [success: true] and the task
    echoed, or 400 or 500 with [success: false] and a non-empty [error]
    string. *)
Lemma post_api_ai_always_answers `{Engine} (GROQ_API_KEY : option jsstring)
    (task content : value) (w : world) (h : history) :
  exists response,
    fst (run w h (post_api_ai GROQ_API_KEY task content)) = inr response
    /\ is_answer task response.
Proof.
  pose proof (ends_run _ _ _ (post_api_ai_ends GROQ_API_KEY task content) w h)
    as Hend.
  destruct (fst (run w h (post_api_ai GROQ_API_KEY task content)))
    as [e|response]; [contradiction|].
  exists response. split; [reflexivity|exact Hend].
Qed.

(** ** The key: [GET /api/health] and the guard of the route *)

Lemma hasApiKey_configured (GROQ_API_KEY : option jsstring) :
  hasApiKey GROQ_API_KEY
  = match configured_key GROQ_API_KEY with Some _ => true | None => false end.
Proof.
  unfold hasApiKey, configured_key.
  destruct GROQ_API_KEY as [key|]; [|reflexivity].
  cbn [env_value strict_equals_string].
  destruct (ToBoolean (VString key)), (str_eqb key placeholder_key);
    reflexivity.
Qed.

Section KeyGuard.
Context `{Engine}.

Lemma dispatch_not_unconfigured (task content : value) (apiKey : jsstring) :
  ends (fun routed => match routed with
                      | inl response =>
                          response <> failure 500 not_configured_message
                      | inr _ => True
                      end)
       (fun _ => True)
       (dispatch task content apiKey).
Proof.
  unfold dispatch.
  repeat match goal with
         | |- ends _ _ (if ?c then _ else _) => destruct c
         end;
    try (eapply ends_bind; [apply ends_anyhow|]; intros result _; exact I).
  eapply ends_bind; [apply ends_anyhow|]. intros shown _.
  cbn [ends]. unfold failure. intros Heq. discriminate Heq.
Qed.

(** With a key the guard lets through, the handler never gives the answer
    of the key guard. *)
Lemma post_api_ai_configured (GROQ_API_KEY : option jsstring) (apiKey : jsstring)
    (task content : value) :
  configured_key GROQ_API_KEY = Some apiKey ->
  ends (fun response => response <> failure 500 not_configured_message)
       (fun _ => False)
       (post_api_ai GROQ_API_KEY task content).
Proof.
  intros Hkey. unfold post_api_ai. rewrite Hkey.
  apply (ends_try_catch _ (fun _ => True)).
  2:{ intros e _ now. cbn [bind ends console_error].
      unfold failure. intros Heq. discriminate Heq. }
  destruct (negb (ToBoolean task) || negb (ToBoolean content)).
  { cbn [ends]. unfold failure. intros Heq. discriminate Heq. }
  eapply ends_bind; [apply ends_anyhow|]. intros length _.
  eapply ends_bind; [apply ends_anyhow|]. intros [|] _.
  { cbn [ends]. unfold failure. intros Heq. discriminate Heq. }
  eapply ends_bind; [apply ends_anyhow|]. intros now _.
  eapply ends_bind; [apply ends_anyhow|]. intros shown_task _.
  eapply ends_bind; [apply ends_anyhow|]. intros length' _.
  eapply ends_bind; [apply ends_anyhow|]. intros shown_length _.
  eapply ends_bind; [apply ends_anyhow|]. intros _ _.
  eapply ends_bind; [apply dispatch_not_unconfigured|].
  intros [response|result] Hrouted; [exact Hrouted|].
  eapply ends_bind; [apply ends_anyhow|]. intros now' _.
  eapply ends_bind; [apply ends_anyhow|]. intros shown _.
  eapply ends_bind; [apply ends_anyhow|]. intros _ _.
  cbn [ends]. unfold failure. intros Heq. discriminate Heq.
Qed.

(** Without such a key, a request with both fields stops at the key
    guard. *)
Lemma post_api_ai_unconfigured (GROQ_API_KEY : option jsstring)
    (task content : value) (w : world) (h : history) :
  ToBoolean task = true -> ToBoolean content = true ->
  configured_key GROQ_API_KEY = None ->
  run w h (post_api_ai GROQ_API_KEY task content)
  = (inr (failure 500 not_configured_message), h).
Proof.
  intros Htask Hcontent Hkey. unfold post_api_ai.
  rewrite Htask, Hcontent, Hkey. reflexivity.
Qed.

End KeyGuard.

(** X3.  [GET /api/health] and [POST /api/ai] agree on the key: for a
    request with both fields, the health report says
    [apiKeyConfigured: false] exactly when the route answers 500 with the
    not-configured message (and then nothing else happens: no upstream
    call, no console line).  The health report itself is always a 200. *)
Theorem health_agrees_with_route `{Engine} (GROQ_API_KEY : option jsstring)
    (task content : value) (w : world) (h : history) :
  ToBoolean task = true -> ToBoolean content = true ->
  status (get_api_health GROQ_API_KEY) = 200%Z
  /\ (response_field (lit "apiKeyConfigured") (get_api_health GROQ_API_KEY)
      = VBool false
      <-> run w h (post_api_ai GROQ_API_KEY task content)
          = (inr (failure 500 not_configured_message), h)).
Proof.
  intros Htask Hcontent. split; [reflexivity|].
  change (response_field (lit "apiKeyConfigured") (get_api_health GROQ_API_KEY))
    with (VBool (hasApiKey GROQ_API_KEY)).
  rewrite hasApiKey_configured.
  destruct (configured_key GROQ_API_KEY) as [apiKey|] eqn:Hkey.
  - split; [discriminate|]. intros Hrun. exfalso.
    pose proof (ends_run _ _ _
                  (post_api_ai_configured GROQ_API_KEY apiKey task content Hkey)
                  w h) as Hend.
    rewrite Hrun in Hend. apply Hend. reflexivity.
  - split; [|reflexivity]. intros _.
    apply post_api_ai_unconfigured; assumption.
Qed.

(** The placeholder key of the sample environment file. *)
Lemma health_agrees_with_route_witness :
  response_field (lit "apiKeyConfigured")
    (get_api_health (Some (lit "your_groq_api_key_here"))) = VBool false
  /\ run offline quiet
       (@post_api_ai sample_engine (Some (lit "your_groq_api_key_here"))
          (VString (lit "summarize")) (VString (lit "A note.")))
     = (inr (failure 500 not_configured_message), quiet).
Proof.
  split; [reflexivity|].
  apply (proj2 (@health_agrees_with_route sample_engine
                  (Some (lit "your_groq_api_key_here"))
                  (VString (lit "summarize")) (VString (lit "A note."))
                  offline quiet eq_refl eq_refl)).
  reflexivity.
Defined.

(** ** The route past its guards *)

Lemma normalize_result (k : task_kind) (raw : jsstring) (w : world) (h : history) :
  fst (run w h (normalize k (VString raw))) = inr (task_result k raw).
Proof.
  destruct k; cbn [normalize task_result]; try reflexivity.
  - unfold suggestTags_normalize. simpl.
    rewrite parse_tags_is_tags_row. reflexivity.
  - apply generateGlossary_normalize_row.
Qed.

Section PastGuards.
Context `{Engine}.

Lemma executor_run (k : task_kind) (content : value) (apiKey : jsstring)
    (w : world) (h : history) :
  run w h (executor k content apiKey)
  = match run w h (callGroqAPI (prompt_of k) content apiKey) with
    | (inr response, h') => run w h' (normalize k response)
    | (inl e, h') => (inl e, h')
    end.
Proof.
  assert (Hexec : executor k content apiKey
                  = bind (callGroqAPI (prompt_of k) content apiKey) (normalize k))
    by (destruct k; reflexivity).
  rewrite Hexec. apply run_bind.
Qed.

(** One request; the normalised completion when upstream gives one, the
    failure of the adapter otherwise. *)
Lemma executor_outcome (k : task_kind) (content : value) (apiKey : jsstring)
    (w : world) (h : history) :
  requests (snd (run w h (executor k content apiKey)))
  = requests h ++ [chat_request (prompt_of k) content apiKey]
  /\ fst (run w h (executor k content apiKey))
     = match fst (run w h (callGroqAPI (prompt_of k) content apiKey)) with
       | inr response => fst (run w h (normalize k response))
       | inl e => inl e
       end.
Proof.
  rewrite executor_run.
  pose proof (callGroqAPI_requests (prompt_of k) content apiKey w h) as Hreq.
  destruct (run w h (callGroqAPI (prompt_of k) content apiKey))
    as [[e|response] h'] eqn:Hcall; cbn [fst snd] in *.
  - split; [exact Hreq|reflexivity].
  - destruct (console_only_run _ (normalize_console_only k response) w h' w h)
      as (Hfst & Hq & _).
    split; [rewrite Hq; exact Hreq|exact Hfst].
Qed.

(** Past the guards, the answer of the route is the outcome of the
    executor in an envelope. *)
Lemma post_api_ai_past_guards (GROQ_API_KEY : option jsstring) (apiKey : jsstring)
    (k : task_kind) (content : jsstring) (w : world) (h : history) :
  configured_key GROQ_API_KEY = Some apiKey ->
  content <> [] ->
  (Z.of_nat (str_length content) <= 50000)%Z ->
  exists h1,
    requests h1 = requests h
    /\ fst (run w h (post_api_ai GROQ_API_KEY (VString (task_name k))
                       (VString content)))
       = match fst (run w h1 (executor k (VString content) apiKey)) with
         | inr result => inr (success (VString (task_name k)) result)
         | inl e => inr (caught (exn_message e) (VString (task_name k)))
         end
    /\ requests (snd (run w h (post_api_ai GROQ_API_KEY (VString (task_name k))
                                 (VString content))))
       = requests (snd (run w h1 (executor k (VString content) apiKey))).
Proof.
  intros Hkey Hcontent Hsize.
  remember (run w h (post_api_ai GROQ_API_KEY (VString (task_name k))
                       (VString content))) as out eqn:Hout.
  unfold post_api_ai in Hout. rewrite Hkey in Hout.
  assert (Htask : ToBoolean (VString (task_name k)) = true)
    by (destruct k; reflexivity).
  assert (Htruthy : ToBoolean (VString content) = true)
    by (destruct content; [contradiction|reflexivity]).
  rewrite Htask, Htruthy in Hout. cbn [negb orb] in Hout.
  rewrite run_try_catch, run_bind, run_lift in Hout.
  change (Get (VString content) (lit "length"))
    with (inr (VNumber (number_of_nat (str_length content))) : result value)
    in Hout.
  cbv iota in Hout. rewrite run_bind, run_lift in Hout.
  cbn [exceeds_50000] in Hout.
  rewrite number_of_nat_exceeds_50000 in Hout.
  apply Z.ltb_ge in Hsize. rewrite Hsize in Hout.
  rewrite run_bind in Hout. unfold now_ISO at 1 in Hout. cbn [run] in Hout.
  rewrite run_bind, run_lift in Hout. cbn [ToString] in Hout.
  rewrite run_bind, run_lift in Hout.
  rewrite run_bind, run_lift in Hout. cbn [ToString] in Hout.
  rewrite run_bind in Hout. unfold console_log at 1 in Hout. cbn [run] in Hout.
  rewrite dispatch_known_task, run_bind, run_bind in Hout.
  match type of Hout with
  | context [run w ?h1 (executor k (VString content) apiKey)] =>
      exists h1; split; [reflexivity|];
      remember (run w h1 (executor k (VString content) apiKey)) as ex
  end.
  destruct ex as [[e|result] h2]; subst out; split; reflexivity.
Qed.

End PastGuards.

Section EndToEnd.
Context `{Engine}.

(** The adapter looks at the history only for the number of the request. *)
Lemma callGroqAPI_fst_history (systemPrompt : jsstring) (userContent : value)
    (apiKey : jsstring) (w : world) (h h' : history) :
  requests h' = requests h ->
  fst (run w h' (callGroqAPI systemPrompt userContent apiKey))
  = fst (run w h (callGroqAPI systemPrompt userContent apiKey)).
Proof.
  intros Hq. rewrite !callGroqAPI_result, Hq. reflexivity.
Qed.

(** Past the guards: one request, and the answer is made of what the
    adapter and then the normaliser of the task give. *)
Lemma post_api_ai_outcome (GROQ_API_KEY : option jsstring) (apiKey : jsstring)
    (k : task_kind) (content : jsstring) (w : world) (h : history) :
  configured_key GROQ_API_KEY = Some apiKey ->
  content <> [] ->
  (Z.of_nat (str_length content) <= 50000)%Z ->
  requests (snd (run w h (post_api_ai GROQ_API_KEY (VString (task_name k))
                            (VString content))))
  = requests h ++ [chat_request (prompt_of k) (VString content) apiKey]
  /\ fst (run w h (post_api_ai GROQ_API_KEY (VString (task_name k))
                     (VString content)))
     = match fst (run w h (callGroqAPI (prompt_of k) (VString content) apiKey)) with
       | inr response =>
           match fst (run w h (normalize k response)) with
           | inr result => inr (success (VString (task_name k)) result)
           | inl e => inr (caught (exn_message e) (VString (task_name k)))
           end
       | inl e => inr (caught (exn_message e) (VString (task_name k)))
       end.
Proof.
  intros Hkey Hcontent Hsize.
  destruct (post_api_ai_past_guards GROQ_API_KEY apiKey k content w h
              Hkey Hcontent Hsize) as (h1 & Hq & Hfst & Hreq).
  destruct (executor_outcome k (VString content) apiKey w h1) as [Hereq Hefst].
  split.
  - rewrite Hreq, Hereq, Hq. reflexivity.
  - rewrite Hfst, Hefst.
    rewrite (callGroqAPI_fst_history _ _ _ w h h1 Hq).
    destruct (fst (run w h (callGroqAPI (prompt_of k) (VString content) apiKey)))
      as [e|response]; [reflexivity|].
    destruct (console_only_run _ (normalize_console_only k response) w h1 w h)
      as (Hn & _ & _).
    rewrite Hn. reflexivity.
Qed.

(** What each normaliser makes of a completion that is not a string. *)
Lemma normalize_non_string (k : task_kind) (response : value)
    (w : world) (h : history) :
  is_string response = false ->
  match k with
  | Summarize | Grammar => fst (run w h (normalize k response)) = inr response
  | Tags => exists why,
      fst (run w h (normalize k response)) = inl (TypeError why)
  | Glossary => fst (run w h (normalize k response)) = inr (VArray [])
  end.
Proof.
  intros Hs. destruct k; cbn [normalize]; try reflexivity.
  - unfold suggestTags_normalize.
    destruct response; try discriminate; eexists; reflexivity.
  - unfold generateGlossary_normalize.
    destruct response; try discriminate; reflexivity.
Qed.

End EndToEnd.

(** X4.  Past the guards (a key the guard lets through, a non-empty
    content of at most 50,000 characters) and for each of the four tasks:
    when the adapter returns the completion text [raw], the route makes
    exactly one upstream request, that of the task's prompt, and answers
    200 with [success: true], the task echoed and as [data] what the task
    makes of [raw]: [raw] itself for summarize and grammar, the tags, the
    glossary. *)
Theorem route_returns_normalised_completion `{Engine}
    (GROQ_API_KEY : option jsstring) (apiKey : jsstring) (k : task_kind)
    (content raw : jsstring) (w : world) (h : history) :
  configured_key GROQ_API_KEY = Some apiKey ->
  content <> [] ->
  (Z.of_nat (str_length content) <= 50000)%Z ->
  fst (run w h (callGroqAPI (prompt_of k) (VString content) apiKey))
  = inr (VString raw) ->
  fst (run w h (post_api_ai GROQ_API_KEY (VString (task_name k)) (VString content)))
  = inr (success (VString (task_name k)) (task_result k raw))
  /\ requests (snd (run w h (post_api_ai GROQ_API_KEY (VString (task_name k))
                               (VString content))))
     = requests h ++ [chat_request (prompt_of k) (VString content) apiKey].
Proof.
  intros Hkey Hcontent Hsize Hcall.
  destruct (post_api_ai_outcome GROQ_API_KEY apiKey k content w h
              Hkey Hcontent Hsize) as [Hreq Hfst].
  split; [|exact Hreq].
  rewrite Hfst, Hcall, normalize_result. reflexivity.
Qed.

(** Tags for a note, from a completion with a stray comma and spaces. *)
Lemma route_returns_normalised_completion_witness :
  let w := answering (completion
             (VObject [ (lit "content", VString (lit "rocq, proofs ,, javascript")) ])) in
  fst (run w quiet
         (@post_api_ai sample_engine (Some (lit "gsk_live"))
            (VString (lit "tags")) (VString (lit "A note on proofs."))))
  = inr (success (VString (lit "tags"))
           (VArray [ VString (lit "rocq"); VString (lit "proofs");
                     VString (lit "javascript") ])).
Proof.
  intros w.
  exact (proj1 (@route_returns_normalised_completion sample_engine
                  (Some (lit "gsk_live")) (lit "gsk_live") Tags
                  (lit "A note on proofs.") (lit "rocq, proofs ,, javascript")
                  w quiet eq_refl ltac:(discriminate)
                  ltac:(vm_compute; discriminate) eq_refl)).
Defined.

(** X5.  Past the guards and for each of the four tasks: when the adapter
    throws, the route still makes exactly one upstream request and answers
    500 with [success: false], the task echoed and as [error] the message
    of what the adapter threw (the generic message of the route if that
    message is empty).  The [try] of [generateGlossary] does not cover the
    upstream call: an upstream failure is a 500 for glossary too, not an
    empty glossary. *)
Theorem route_reports_adapter_failure `{Engine}
    (GROQ_API_KEY : option jsstring) (apiKey : jsstring) (k : task_kind)
    (content : jsstring) (e : exn) (w : world) (h : history) :
  configured_key GROQ_API_KEY = Some apiKey ->
  content <> [] ->
  (Z.of_nat (str_length content) <= 50000)%Z ->
  fst (run w h (callGroqAPI (prompt_of k) (VString content) apiKey)) = inl e ->
  fst (run w h (post_api_ai GROQ_API_KEY (VString (task_name k)) (VString content)))
  = inr (caught (exn_message e) (VString (task_name k)))
  /\ requests (snd (run w h (post_api_ai GROQ_API_KEY (VString (task_name k))
                               (VString content))))
     = requests h ++ [chat_request (prompt_of k) (VString content) apiKey].
Proof.
  intros Hkey Hcontent Hsize Hcall.
  destruct (post_api_ai_outcome GROQ_API_KEY apiKey k content w h
              Hkey Hcontent Hsize) as [Hreq Hfst].
  split; [|exact Hreq].
  rewrite Hfst, Hcall. reflexivity.
Qed.

(** A glossary request while the upstream service is unreachable. *)
Lemma route_reports_adapter_failure_witness :
  fst (run offline quiet
         (@post_api_ai sample_engine (Some (lit "gsk_live"))
            (VString (lit "glossary")) (VString (lit "A note."))))
  = inr (caught (lit "AI service error") (VString (lit "glossary"))).
Proof.
  exact (proj1 (@route_reports_adapter_failure sample_engine
                  (Some (lit "gsk_live")) (lit "gsk_live") Glossary
                  (lit "A note.") (Error (lit "AI service error"))
                  offline quiet eq_refl ltac:(discriminate)
                  ltac:(vm_compute; discriminate) eq_refl)).
Defined.

(** X6.  Past the guards, when the adapter returns something that is not a
    string (a first choice whose [content] is [null] or absent), the four
    tasks part ways: summarize and grammar answer 200 with that value as
    [data]; tags answers 500, the call of [split] having thrown a
    [TypeError]; glossary answers 200 with the empty array. *)
Theorem route_on_completion_without_text `{Engine}
    (GROQ_API_KEY : option jsstring) (apiKey : jsstring) (k : task_kind)
    (content : jsstring) (response : value) (w : world) (h : history) :
  configured_key GROQ_API_KEY = Some apiKey ->
  content <> [] ->
  (Z.of_nat (str_length content) <= 50000)%Z ->
  fst (run w h (callGroqAPI (prompt_of k) (VString content) apiKey))
  = inr response ->
  is_string response = false ->
  let answer :=
    fst (run w h (post_api_ai GROQ_API_KEY (VString (task_name k))
                    (VString content))) in
  match k with
  | Summarize | Grammar => answer = inr (success (VString (task_name k)) response)
  | Tags => exists why,
      answer = inr (caught (type_error_message why) (VString (task_name k)))
  | Glossary => answer = inr (success (VString (task_name k)) (VArray []))
  end.
Proof.
  intros Hkey Hcontent Hsize Hcall Hs answer. subst answer.
  destruct (post_api_ai_outcome GROQ_API_KEY apiKey k content w h
              Hkey Hcontent Hsize) as [_ Hfst].
  rewrite Hfst, Hcall.
  pose proof (normalize_non_string k response w h Hs) as Hn.
  destruct k.
  - rewrite Hn. reflexivity.
  - destruct Hn as (why & Hn). exists why. rewrite Hn. reflexivity.
  - rewrite Hn. reflexivity.
  - rewrite Hn. reflexivity.
Qed.

(** A first choice with [content: null], asked for tags. *)
Lemma route_on_completion_without_text_witness :
  let w := answering (completion (VObject [ (lit "content", VNull) ])) in
  exists why,
    fst (run w quiet
           (@post_api_ai sample_engine (Some (lit "gsk_live"))
              (VString (lit "tags")) (VString (lit "A note."))))
    = inr (caught (@type_error_message sample_engine why) (VString (lit "tags"))).
Proof.
  intros w.
  exact (@route_on_completion_without_text sample_engine
           (Some (lit "gsk_live")) (lit "gsk_live") Tags
           (lit "A note.") VNull w quiet eq_refl ltac:(discriminate)
           ltac:(vm_compute; discriminate) eq_refl eq_refl).
Defined.

(** ** The exported functions *)

(** X7.  Each of the five functions [src/aiService.js] exports makes
    exactly one upstream request, that of its own prompt with the content
    and key it was given, and throws what [callGroqAPI] throws: the [try]
    blocks of [generateGlossary] and [findGrammarErrors] start after the
    upstream call, so an upstream failure is never turned into an empty
    array. *)
Theorem exported_functions_call_once `{Engine}
    (prompt : jsstring) (f : value -> jsstring -> Prog value)
    (content : value) (apiKey : jsstring) (w : world) (h : history) :
  In (prompt, f) exported_functions ->
  requests (snd (run w h (f content apiKey)))
  = requests h ++ [chat_request prompt content apiKey]
  /\ forall e,
       fst (run w h (callGroqAPI prompt content apiKey)) = inl e ->
       fst (run w h (f content apiKey)) = inl e.
Proof.
  intros Hin.
  assert (Hshape : exists g,
             f content apiKey = bind (callGroqAPI prompt content apiKey) g
             /\ forall response, console_only (g response)).
  { unfold exported_functions in Hin. cbn [In] in Hin.
    destruct Hin as [Hf|[Hf|[Hf|[Hf|[Hf|[]]]]]]; injection Hf as <- <-.
    - exists (fun response => Return response). split; [reflexivity|].
      intros response. exact I.
    - exists suggestTags_normalize. split; [reflexivity|].
      intros response. apply (normalize_console_only Tags).
    - exists (fun response => Return response). split; [reflexivity|].
      intros response. exact I.
    - exists generateGlossary_normalize. split; [reflexivity|].
      apply generateGlossary_normalize_shape.
    - exists findGrammarErrors_normalize. split; [reflexivity|].
      apply findGrammarErrors_normalize_shape. }
  destruct Hshape as (g & -> & Hg). rewrite run_bind.
  pose proof (callGroqAPI_requests prompt content apiKey w h) as Hreq.
  destruct (run w h (callGroqAPI prompt content apiKey))
    as [[e|response] h'] eqn:Hcall; cbn [fst snd] in *.
  - split; [exact Hreq|]. intros e' He'. exact He'.
  - split; [|discriminate].
    destruct (console_only_run _ (Hg response) w h' w h) as (_ & Hq & _).
    rewrite Hq. exact Hreq.
Qed.

(** [findGrammarErrors] while the upstream service is unreachable. *)
Lemma exported_functions_call_once_witness :
  fst (run offline quiet
         (@findGrammarErrors sample_engine (VString (lit "Their is a eror"))
            (lit "gsk_live")))
  = inl (Error (lit "AI service error")).
Proof.
  apply (@exported_functions_call_once sample_engine grammar_errors_prompt
           (@findGrammarErrors sample_engine)
           (VString (lit "Their is a eror")) (lit "gsk_live") offline quiet).
  - unfold exported_functions. cbn [In]. do 4 right. left. reflexivity.
  - reflexivity.
Defined.

(** ** The normalisers, whatever the completion *)

Lemma filter_items_with_null (a b : jsstring) (items : list value) :
  existsb is_null items = true ->
  exists e, filter_items (both_fields a b) items = inl e.
Proof.
  induction items as [|item more IH]; simpl; [discriminate|].
  intros Hnull. destruct item; simpl in Hnull;
    try (destruct (IH Hnull) as (e & He);
         destruct (both_fields a b _) as [e'|v];
           [eexists; reflexivity|rewrite He; eexists; reflexivity]).
  eexists. reflexivity.
Qed.

(** X8.  Whatever value the completion is, the normalisers of
    [generateGlossary] and [findGrammarErrors] return an array and do not
    throw, and the array is empty when the completion is not a string; the
    normaliser of [suggestTags] returns an array when the completion is a
    string and throws a [TypeError] otherwise.  None of them calls the
    upstream service. *)
Theorem normalisers_on_any_completion (response : value) (w : world) (h : history) :
  (exists items,
     fst (run w h (generateGlossary_normalize response)) = inr (VArray items)
     /\ (is_string response = false -> items = []))
  /\ (exists items,
        fst (run w h (findGrammarErrors_normalize response)) = inr (VArray items)
        /\ (is_string response = false -> items = []))
  /\ (if is_string response
      then exists tags,
             fst (run w h (suggestTags_normalize response)) = inr (VArray tags)
      else exists why,
             fst (run w h (suggestTags_normalize response)) = inl (TypeError why))
  /\ requests (snd (run w h (generateGlossary_normalize response))) = requests h
  /\ requests (snd (run w h (findGrammarErrors_normalize response))) = requests h
  /\ requests (snd (run w h (suggestTags_normalize response))) = requests h.
Proof.
  split; [|split; [|split; [|split; [|split]]]].
  - destruct response as [| | | |raw| |];
      try (exists []; split; [reflexivity|reflexivity]).
    rewrite generateGlossary_normalize_row. unfold glossary_row.
    destruct (JSON.parse (clean_response raw)) as [e|[| | | | |items|]];
      try (exists []; split; [reflexivity|discriminate]).
    destruct (forallb _ items); eexists; (split; [reflexivity|discriminate]).
  - destruct response as [| | | |raw| |];
      try (exists []; split; [reflexivity|reflexivity]).
    rewrite findGrammarErrors_normalize_returns.
    destruct (JSON.parse (clean_response raw)) as [e|[| | | | |items|]];
      try (exists []; split; [reflexivity|discriminate]).
    destruct (filter_items _ items); eexists; (split; [reflexivity|discriminate]).
  - destruct response; cbn [is_string]; eexists; reflexivity.
  - apply (console_only_run _ (generateGlossary_normalize_shape response) w h w h).
  - apply (console_only_run _ (findGrammarErrors_normalize_shape response) w h w h).
  - apply (console_only_run _ (normalize_console_only Tags response) w h w h).
Qed.

(** X9.  When the stripped completion parses to an array with a [null]
    element, [findGrammarErrors] returns the empty array, whatever the
    other elements are: the callback of [filter] throws on [null] and the
    [catch] block answers for the whole array. *)
Theorem grammar_errors_null_element (raw : jsstring) (items : list value)
    (w : world) (h : history) :
  JSON.parse (clean_response raw) = inr (VArray items) ->
  existsb is_null items = true ->
  fst (run w h (findGrammarErrors_normalize (VString raw))) = inr (VArray []).
Proof.
  intros Hparse Hnull. rewrite findGrammarErrors_normalize_returns, Hparse.
  destruct (filter_items_with_null (lit "error") (lit "correction") items Hnull)
    as (e & ->).
  reflexivity.
Qed.

Lemma grammar_errors_null_element_witness :
  fst (run offline quiet
         (findGrammarErrors_normalize
            (VString (qlit "[null,{'error':'teh','correction':'the'}]"))))
  = inr (VArray []).
Proof.
  apply (grammar_errors_null_element
           (qlit "[null,{'error':'teh','correction':'the'}]")
           [ VNull;
             VObject [ (lit "error", VString (lit "teh"));
                       (lit "correction", VString (lit "the")) ] ]).
  - vm_compute. reflexivity.
  - reflexivity.
Defined.

(** ** Tags, once more *)

Lemma trimmed_ends (s : jsstring) :
  trim s <> [] ->
  is_white_space (hd 0 (trim s)) = false
  /\ is_white_space (last (trim s) 0) = false.
Proof.
  intros Hne.
  destruct (trim_spec s) as (before & after & _ & _ & _ & Hhead & Hlast).
  split.
  - destruct (trim s) as [|c t]; [contradiction|exact Hhead].
  - destruct (rev (trim s)) as [|c t] eqn:Hrev.
    + apply (f_equal (@rev N)) in Hrev. rewrite rev_involutive in Hrev.
      contradiction.
    + apply (f_equal (@rev N)) in Hrev. rewrite rev_involutive in Hrev.
      rewrite Hrev. simpl. rewrite last_last. exact Hlast.
Qed.

Lemma trim_keeps_no_more (s : jsstring) (c : N) : In c (trim s) -> In c s.
Proof.
  destruct (trim_spec s) as (before & after & Hs & _).
  intros Hin. rewrite Hs. apply in_or_app. right.
  apply in_or_app. left. exact Hin.
Qed.

Lemma parse_tags_clean (raw : jsstring) : Forall clean_tag (parse_tags raw).
Proof.
  rewrite parse_tags_is_tags_row. unfold tags_row.
  apply Forall_firstn. apply Forall_forall. intros tag Hin.
  apply filter_In in Hin as [Hin Hne].
  apply in_map_iff in Hin as (piece & <- & Hpiece).
  assert (Hnn : trim piece <> []) by (destruct (trim piece); discriminate).
  destruct (trimmed_ends piece Hnn) as [Hhd Hlast].
  repeat split; try assumption.
  intros Hcomma. apply trim_keeps_no_more in Hcomma.
  pose proof (split_pieces_without_separator COMMA raw) as Hall.
  rewrite Forall_forall in Hall. exact (Hall piece Hpiece Hcomma).
Qed.

(** A string that neither starts nor ends with white space is its own
    trim. *)
Lemma trim_fixed (s : jsstring) :
  s <> [] ->
  is_white_space (hd 0 s) = false -> is_white_space (last s 0) = false ->
  trim s = s.
Proof.
  intros Hne Hhd Hlast.
  assert (Hstart : trim_start s = s).
  { destruct s as [|c t]; [contradiction|]. simpl in *. rewrite Hhd.
    reflexivity. }
  unfold trim, trim_end. rewrite Hstart.
  destruct (rev s) as [|c t] eqn:Hrev.
  - apply (f_equal (@rev N)) in Hrev. rewrite rev_involutive in Hrev.
    contradiction.
  - assert (Hc : is_white_space c = false).
    { apply (f_equal (@rev N)) in Hrev. rewrite rev_involutive in Hrev.
      rewrite Hrev in Hlast. simpl in Hlast. rewrite last_last in Hlast.
      exact Hlast. }
    simpl. rewrite Hc, <- Hrev. apply rev_involutive.
Qed.

(** Splitting a join gives the pieces back, when there is a piece and no
    piece holds the separator. *)
Lemma split_join (sep : N) (pieces : list jsstring) :
  pieces <> [] ->
  Forall (fun piece => ~ In sep piece) pieces ->
  split sep (join sep pieces) = pieces.
Proof.
  assert (Hpiece : forall piece rest,
             ~ In sep piece ->
             split sep (piece ++ sep :: rest) = piece :: split sep rest).
  { induction piece as [|c piece IH]; intros rest Hno; simpl.
    - rewrite N.eqb_refl. reflexivity.
    - destruct (N.eqb_spec c sep) as [->|Hne].
      + exfalso. apply Hno. left. reflexivity.
      + rewrite IH by (intros Hin; apply Hno; right; exact Hin).
        reflexivity. }
  assert (Hsingle : forall piece, ~ In sep piece -> split sep piece = [piece]).
  { induction piece as [|c piece IH]; intros Hno; simpl; [reflexivity|].
    destruct (N.eqb_spec c sep) as [->|Hne].
    - exfalso. apply Hno. left. reflexivity.
    - rewrite IH by (intros Hin; apply Hno; right; exact Hin). reflexivity. }
  induction pieces as [|piece more IH]; [contradiction|].
  intros _ Hall. inversion Hall as [|? ? Hno Hmore]; subst.
  destruct more as [|next more].
  - simpl. apply Hsingle. exact Hno.
  - change (join sep (piece :: next :: more))
      with (piece ++ sep :: join sep (next :: more)).
    rewrite Hpiece by exact Hno. rewrite IH; [reflexivity|discriminate|exact Hmore].
Qed.

(** X10.  Every tag [suggestTags] returns is clean: it is not empty, holds
    no comma, and neither starts nor ends with white space. *)
Theorem tags_are_clean (raw : jsstring) (w : world) (h : history) :
  exists tags,
    fst (run w h (suggestTags_normalize (VString raw)))
    = inr (VArray (map VString tags))
    /\ Forall clean_tag tags.
Proof.
  exists (parse_tags raw). split; [reflexivity|apply parse_tags_clean].
Qed.

(** X11.  The tags survive a round trip through the format they came in:
    joined with commas and normalised again, they are the same tags. *)
Theorem tags_round_trip (raw : jsstring) :
  parse_tags (join COMMA (parse_tags raw)) = parse_tags raw.
Proof.
  pose proof (parse_tags_clean raw) as Hclean.
  assert (Hlen : (List.length (parse_tags raw) <= 5)%nat).
  { rewrite parse_tags_is_tags_row. unfold tags_row. apply firstn_le_length. }
  destruct (parse_tags raw) as [|tag tags] eqn:Htags; [reflexivity|].
  rewrite parse_tags_is_tags_row. unfold tags_row.
  rewrite split_join.
  - assert (Hmap : map trim (tag :: tags) = tag :: tags).
    { rewrite <- (map_id (tag :: tags)) at 2. apply map_ext_in.
      intros t Ht. rewrite Forall_forall in Hclean.
      destruct (Hclean t Ht) as (Hne & _ & Hhd & Hlast).
      apply trim_fixed; assumption. }
    rewrite Hmap.
    assert (Hfilter : filter non_empty (tag :: tags) = tag :: tags).
    { apply forallb_filter_id. apply forallb_forall. intros t Ht.
      rewrite Forall_forall in Hclean.
      destruct (Hclean t Ht) as (Hne & _). destruct t; [contradiction|reflexivity]. }
    rewrite Hfilter. apply firstn_all2. exact Hlen.
  - discriminate.
  - eapply Forall_impl; [|exact Hclean]. intros t (_ & Hno & _). exact Hno.
Qed.

(** ** Code fences, once more *)

Lemma nowhere_suffix (p a b : jsstring) :
  nowhere p (a ++ b) = true -> nowhere p b = true.
Proof.
  induction a as [|c a IH]; [auto|]. simpl app. cbn [nowhere].
  intros Hn. apply andb_true_iff in Hn as [_ Hn]. apply IH, Hn.
Qed.

Lemma nowhere_prefix (p a b : jsstring) :
  nowhere p (a ++ b) = true -> nowhere p a = true.
Proof.
  induction a as [|c a IH]; [reflexivity|].
  change ((c :: a) ++ b) with (c :: a ++ b). cbn [nowhere].
  intros Hn. apply andb_true_iff in Hn as [Hhere Hn].
  apply andb_true_iff. split; [|apply IH, Hn].
  apply negb_true_iff. apply negb_true_iff in Hhere.
  destruct (starts_with p (c :: a)) eqn:Hs; [|reflexivity].
  apply (starts_with_app p (c :: a) b) in Hs.
  change ((c :: a) ++ b) with (c :: a ++ b) in Hs. congruence.
Qed.

Lemma nowhere_trim (p s : jsstring) :
  nowhere p s = true -> nowhere p (trim s) = true.
Proof.
  destruct (trim_spec s) as (before & after & Hs & _).
  intros Hn. rewrite Hs in Hn.
  apply nowhere_suffix in Hn. apply nowhere_prefix in Hn. exact Hn.
Qed.

Lemma trim_idempotent (s : jsstring) : trim (trim s) = trim s.
Proof.
  destruct (trim s) as [|c t] eqn:Ht; [reflexivity|].
  rewrite <- Ht.
  assert (Hne : trim s <> []) by (rewrite Ht; discriminate).
  destruct (trimmed_ends s Hne) as [Hhd Hlast].
  apply trim_fixed; assumption.
Qed.

(** What the second pattern leaves holds no fence: a match is taken at the
    first place it starts, so what is kept before a match does not end in
    backticks that would join those kept after it. *)
Lemma remove_fences_nowhere (s : jsstring) :
  forall skip, fence_free (remove_matches_from fence_re skip s) = true.
Proof.
  unfold fence_free.
  induction s as [|c rest IH]; intros skip; [destruct skip; reflexivity|].
  cbn [remove_matches_from]. destruct skip as [|skip]; [|apply IH].
  destruct (fence_re (c :: rest)) as [[|n]|] eqn:Hre; try apply IH.
  - exfalso. unfold fence_re, literal_then_optional_LF in Hre.
    destruct (starts_with (lit "```") (c :: rest)); [|discriminate].
    cbn [List.length lit] in Hre.
    destruct (skipn _ (c :: rest)) as [|x t]; [discriminate|].
    destruct (x =? LF); discriminate.
  - assert (Hno : starts_with (lit "```") (c :: rest) = false).
    { unfold fence_re, literal_then_optional_LF in Hre.
      destruct (starts_with (lit "```") (c :: rest)); [|reflexivity].
      destruct (skipn _ (c :: rest)) as [|x t]; [discriminate|].
      destruct (x =? LF); discriminate. }
    cbn [nowhere]. rewrite (IH 0%nat), andb_true_r. apply negb_true_iff.
    assert (Hkeep : forall x t, starts_with [96; 96; 96] (x :: t) = false ->
              remove_matches_from fence_re 0 (x :: t)
              = x :: remove_matches_from fence_re 0 t).
    { intros x t Hx. cbn [remove_matches_from].
      unfold fence_re at 1, literal_then_optional_LF.
      change (lit "```") with [96; 96; 96]. rewrite Hx. reflexivity. }
    change (lit "```") with [96; 96; 96] in *. cbn [starts_with] in *.
    destruct (96 =? c) eqn:Hc; [|reflexivity]. cbn [andb] in *.
    destruct rest as [|x rest]; [reflexivity|].
    rewrite Hkeep.
    2:{ cbn [starts_with]. destruct (96 =? x); [|reflexivity].
        cbn [andb] in *. destruct rest as [|y rest]; [reflexivity|].
        destruct (96 =? y); [discriminate Hno|reflexivity]. }
    destruct (96 =? x) eqn:Hx; [|reflexivity]. cbn [andb] in *.
    destruct rest as [|y rest]; [reflexivity|].
    destruct (96 =? y) eqn:Hy; [discriminate Hno|].
    rewrite Hkeep.
    2:{ cbn [starts_with]. rewrite Hy. reflexivity. }
    rewrite Hy. reflexivity.
Qed.

Lemma clean_response_bare_fenced (body : jsstring) :
  fence_free body = true -> clean_response (bare_fenced body) = trim body.
Proof.
  intros Hfree. unfold clean_response, bare_fenced.
  assert (Htail : nowhere (lit "```json") (body ++ LF :: lit "```") = true).
  { apply nowhere_before_closing_fence;
      [apply fence_json_is_fence|reflexivity|exact Hfree]. }
  assert (Hjson : remove_matches fence_json_re
                    (lit "```" ++ LF :: body ++ LF :: lit "```")
                  = lit "```" ++ LF :: body ++ LF :: lit "```").
  { unfold fence_json_re. apply remove_matches_nowhere.
    change (lit "```" ++ LF :: body ++ LF :: lit "```")
      with (96 :: 96 :: 96 :: LF :: (body ++ LF :: lit "```")).
    cbn [nowhere]. rewrite Htail. reflexivity. }
  rewrite Hjson.
  assert (Hopen : remove_matches fence_re
                    (lit "```" ++ LF :: body ++ LF :: lit "```")
                  = remove_matches fence_re (body ++ LF :: lit "```"))
    by reflexivity.
  rewrite Hopen, remove_closing_fence by exact Hfree.
  apply trim_trailing_white_space. reflexivity.
Qed.

(** X12.  A completion without code fence is only trimmed, and the same
    text between an opening fence line, labelled [json] or not, and a
    closing fence line is unwrapped to the same result. *)
Theorem fences_are_unwrapped (body : jsstring) :
  fence_free body = true ->
  clean_response body = trim body
  /\ clean_response (fenced body) = trim body
  /\ clean_response (bare_fenced body) = trim body.
Proof.
  intros Hfree. split; [|split].
  - apply clean_response_plain. exact Hfree.
  - apply clean_response_fenced. exact Hfree.
  - apply clean_response_bare_fenced. exact Hfree.
Qed.

Lemma fences_are_unwrapped_witness :
  clean_response (bare_fenced (qlit " [{'error':'teh','correction':'the'}] "))
  = qlit "[{'error':'teh','correction':'the'}]".
Proof.
  rewrite (proj2 (proj2 (fences_are_unwrapped
                           (qlit " [{'error':'teh','correction':'the'}] ")
                           eq_refl))).
  reflexivity.
Defined.

(** X13.  What [clean_response] returns holds no code fence, whatever the
    completion; so cleaning is idempotent, and the glossary of a cleaned
    completion is the glossary of the completion. *)
Theorem cleaning_is_idempotent (raw : jsstring) :
  fence_free (clean_response raw) = true
  /\ clean_response (clean_response raw) = clean_response raw
  /\ glossary_row (clean_response raw) = glossary_row raw.
Proof.
  assert (Hfree : fence_free (clean_response raw) = true).
  { unfold clean_response. apply nowhere_trim.
    apply (remove_fences_nowhere (remove_matches fence_json_re raw) 0). }
  assert (Hidem : clean_response (clean_response raw) = clean_response raw).
  { rewrite clean_response_plain by exact Hfree.
    unfold clean_response. apply trim_idempotent. }
  split; [exact Hfree|]. split; [exact Hidem|].
  unfold glossary_row. rewrite Hidem. reflexivity.
Qed.

(** ** The size limit *)

(** A known task, a key the guard lets through and a content above the
    limit: the size guard answers, and nothing else happens. *)
Lemma post_api_ai_too_large `{Engine} (GROQ_API_KEY : option jsstring)
    (apiKey : jsstring) (k : task_kind) (content : jsstring)
    (w : world) (h : history) :
  configured_key GROQ_API_KEY = Some apiKey ->
  (50000 < Z.of_nat (str_length content))%Z ->
  run w h (post_api_ai GROQ_API_KEY (VString (task_name k)) (VString content))
  = (inr (failure 400 too_large_message), h).
Proof.
  intros Hkey Hlong. unfold post_api_ai. rewrite Hkey.
  assert (Htask : ToBoolean (VString (task_name k)) = true)
    by (destruct k; reflexivity).
  assert (Htruthy : ToBoolean (VString content) = true)
    by (destruct content; [discriminate Hlong|reflexivity]).
  rewrite Htask, Htruthy. cbn [negb orb].
  rewrite run_try_catch, run_bind, run_lift.
  change (Get (VString content) (lit "length"))
    with (inr (VNumber (number_of_nat (str_length content))) : result value).
  cbv iota. rewrite run_bind, run_lift. cbn [exceeds_50000].
  rewrite number_of_nat_exceeds_50000.
  apply Z.ltb_lt in Hlong. rewrite Hlong. reflexivity.
Qed.

(** X14.  The limit is inclusive: with a key the guard lets through, one
    of the four tasks and a non-empty content string, the upstream service
    is called (once) exactly when the content has at most 50,000 code
    units; 50,000 are forwarded, 50,001 are not. *)
Theorem size_limit_is_inclusive `{Engine} (GROQ_API_KEY : option jsstring)
    (apiKey : jsstring) (k : task_kind) (content : jsstring)
    (w : world) (h : history) :
  configured_key GROQ_API_KEY = Some apiKey ->
  content <> [] ->
  let after :=
    requests (snd (run w h (post_api_ai GROQ_API_KEY (VString (task_name k))
                              (VString content)))) in
  (after = requests h ++ [chat_request (prompt_of k) (VString content) apiKey]
   <-> (Z.of_nat (str_length content) <= 50000)%Z)
  /\ (after = requests h <-> (50000 < Z.of_nat (str_length content))%Z).
Proof.
  intros Hkey Hcontent after. subst after.
  assert (Hdiff : forall q : list axios_request, forall r, q ++ [r] <> q).
  { intros q r Habs. apply (f_equal (@List.length axios_request)) in Habs.
    rewrite length_app in Habs. simpl in Habs. lia. }
  destruct (Z.le_gt_cases (Z.of_nat (str_length content)) 50000) as [Hle|Hgt].
  - destruct (post_api_ai_outcome GROQ_API_KEY apiKey k content w h
                Hkey Hcontent Hle) as [Hreq _].
    rewrite Hreq. split; split; intros Hx; try reflexivity; try assumption.
    + exfalso. exact (Hdiff _ _ Hx).
    + lia.
  - rewrite (post_api_ai_too_large GROQ_API_KEY apiKey k content w h Hkey Hgt).
    cbn [snd]. split; split; intros Hx; try reflexivity; try assumption.
    + exfalso. symmetry in Hx. exact (Hdiff _ _ Hx).
    + lia.
Qed.

(** Exactly 50,000 characters are forwarded. *)
Lemma size_limit_is_inclusive_witness :
  List.length
    (requests (snd (run offline quiet
                      (@post_api_ai sample_engine (Some (lit "gsk_live"))
                         (VString (lit "summarize"))
                         (VString (repeat 97 (N.to_nat 50000)))))))
  = 1%nat.
Proof.
  assert (Hne : repeat 97 (N.to_nat 50000) <> []).
  { intros Habs. apply (f_equal (@List.length N)) in Habs.
    rewrite repeat_length in Habs. apply (f_equal N.of_nat) in Habs.
    rewrite N2Nat.id in Habs. discriminate Habs. }
  assert (Hle : (Z.of_nat (str_length (repeat 97%N (N.to_nat 50000))) <= 50000)%Z).
  { unfold str_length. rewrite repeat_length, N_nat_Z. discriminate. }
  destruct (@size_limit_is_inclusive sample_engine
              (Some (lit "gsk_live")) (lit "gsk_live") Summarize
              (repeat 97 (N.to_nat 50000)) offline quiet eq_refl Hne)
    as [[_ Hcalled] _].
  pose proof (Hcalled Hle) as Hq. cbn [task_name] in Hq.
  rewrite Hq. reflexivity.
Defined.

(** * The glossary row as worded and as coded *)












(** * The route behind its middleware *)

(** ** What the body parser lets through *)

(** The tail of an array parses to an array, the tail of an object to an
    object. *)
Lemma parsers_build_containers (fuel : nat) :
  (forall s acc v rest, JSON.elements fuel s acc = JSON.Parsed v rest ->
     exists items, v = VArray items)
  /\ (forall s acc v rest, JSON.members fuel s acc = JSON.Parsed v rest ->
        exists props, v = VObject props).
Proof.
  induction fuel as [|fuel (IHe & IHm)]; [split; intros; discriminate|].
  split.
  - intros s acc v rest Hs. cbn [JSON.elements] in Hs.
    destruct (JSON.value_at fuel s) as [x r| |]; try discriminate.
    destruct (JSON.skip_ws r) as [|c r']; [discriminate|].
    destruct (c =? 44); [apply IHe in Hs; exact Hs|].
    destruct (c =? 93); [|discriminate].
    injection Hs as <- _. eexists. reflexivity.
  - intros s acc v rest Hs. cbn [JSON.members] in Hs.
    destruct s as [|c r]; [discriminate|].
    destruct (c =? 34); [|discriminate].
    destruct (JSON.string_body r) as [[key r1]|]; [|discriminate].
    destruct (JSON.skip_ws r1) as [|c1 r2]; [discriminate|].
    destruct (c1 =? 58); [|discriminate].
    destruct (JSON.value_at fuel (JSON.skip_ws r2)) as [x r3| |];
      try discriminate.
    destruct (JSON.skip_ws r3) as [|c2 r4]; [discriminate|].
    destruct (c2 =? 44); [apply IHm in Hs; exact Hs|].
    destruct (c2 =? 125); [|discriminate].
    injection Hs as <- _. eexists. reflexivity.
Qed.

(** A text that opens an object or an array parses, if it parses, to an
    object or an array. *)
Lemma strict_parse_is_container (text : jsstring) (v : value) :
  opens_object_or_array text = true -> JSON.parse text = inr v ->
  is_nullish v = false.
Proof.
  unfold opens_object_or_array, JSON.parse, JSON.fuel_for.
  replace (2 * List.length text + 1)%nat with (S (2 * List.length text)) by lia.
  cbn [JSON.value_at].
  destruct (JSON.skip_ws text) as [|c r]; [discriminate|].
  intros Hopen Hparse.
  destruct (c =? 91).
  { destruct (JSON.skip_ws r) as [|c' r'] eqn:Er; [discriminate|].
    destruct (c' =? 93).
    - destruct (JSON.skip_ws r'); [|discriminate].
      injection Hparse as <-. reflexivity.
    - destruct (JSON.elements _ _ _) as [x rest| |] eqn:Ex; try discriminate.
      apply (proj1 (parsers_build_containers _)) in Ex as [items ->].
      destruct (JSON.skip_ws rest); [|discriminate].
      injection Hparse as <-. reflexivity. }
  destruct (c =? 123); [|discriminate Hopen].
  destruct (JSON.skip_ws r) as [|c' r'] eqn:Er; [discriminate|].
  destruct (c' =? 125).
  - destruct (JSON.skip_ws r'); [|discriminate].
    injection Hparse as <-. reflexivity.
  - destruct (JSON.members _ _ _) as [x rest| |] eqn:Ex; try discriminate.
    apply (proj2 (parsers_build_containers _)) in Ex as [props ->].
    destruct (JSON.skip_ws rest); [|discriminate].
    injection Hparse as <-. reflexivity.
Qed.

(** A text that parses to an object opens one. *)
Lemma parsed_object_opens (text : jsstring) (props : list (jsstring * value)) :
  JSON.parse text = inr (VObject props) ->
  opens_object_or_array text = true /\ text <> [].
Proof.
  unfold opens_object_or_array, JSON.parse, JSON.fuel_for.
  replace (2 * List.length text + 1)%nat with (S (2 * List.length text)) by lia.
  cbn [JSON.value_at].
  destruct (JSON.skip_ws text) as [|c r] eqn:Et; [discriminate|].
  intros Hparse. split; [|intros ->; discriminate Et].
  destruct (c =? 91); [apply orb_true_r|].
  destruct (c =? 123); [reflexivity|]. exfalso.
  assert (Hshape : forall (v : value) rest,
             match JSON.skip_ws rest with
             | [] => inr v
             | _ :: _ => inl (SyntaxError text)
             end = (inr (VObject props) : result value) ->
             v = VObject props)
    by (intros v rest; destruct (JSON.skip_ws rest); congruence).
  destruct (c =? 34).
  { destruct (JSON.string_body r) as [[str r']|]; [|discriminate].
    apply Hshape in Hparse. discriminate. }
  destruct (starts_with (lit "true") (c :: r));
    [apply Hshape in Hparse; discriminate|].
  destruct (starts_with (lit "false") (c :: r));
    [apply Hshape in Hparse; discriminate|].
  destruct (starts_with (lit "null") (c :: r));
    [apply Hshape in Hparse; discriminate|].
  destruct (JSON.number_literal (c :: r)) as [[n r']|]; [|discriminate].
  apply Hshape in Hparse. discriminate.
Qed.

(** Whatever the version of Express, a JSON body the parser lets through
    is an object or an array. *)
Lemma express_json_body (version : express) (text : jsstring) (wide : N)
    (req_body : value) :
  express_json version (JsonBody text wide) = inr req_body ->
  is_nullish req_body = false.
Proof.
  cbn [express_json].
  destruct (body_limit <? body_bytes text wide); [discriminate|].
  destruct text as [|c r]; [intros [= <-]; reflexivity|].
  destruct (opens_object_or_array (c :: r)) eqn:Hopen; [|discriminate].
  apply strict_parse_is_container. exact Hopen.
Qed.

(** An object within the size limit reaches the handler as parsed. *)
Lemma express_json_object (version : express) (text : jsstring) (wide : N)
    (props : list (jsstring * value)) :
  JSON.parse text = inr (VObject props) ->
  express_json version (JsonBody text wide)
  = if body_limit <? body_bytes text wide
    then inl (Error (lit "request entity too large"))
    else inr (VObject props).
Proof.
  intros Hparse. cbn [express_json].
  destruct (body_limit <? body_bytes text wide); [reflexivity|].
  destruct (parsed_object_opens _ _ Hparse) as [Hopen Htext].
  destruct text as [|c r]; [contradiction|].
  rewrite Hopen. exact Hparse.
Qed.

(** Only an object has a [content] that is a string. *)
Lemma string_property_of_object (v : value) (key s : jsstring) :
  array_index key = None -> str_eqb key (lit "length") = false ->
  property v key = VString s ->
  exists props, v = VObject props /\ lookup key props = Some (VString s).
Proof.
  intros Hindex Hlength.
  destruct v as [| |b|n|str|items|props]; cbn [property];
    rewrite ?Hindex, ?Hlength; try discriminate.
  intros Hp. exists props. split; [reflexivity|].
  destruct (lookup key props) as [x|]; [|discriminate]. congruence.
Qed.

(** ** A parsed body is no longer than its text *)

Lemma string_weight_array_cons (x : value) (more : list value) :
  string_weight (VArray (x :: more))
  = (string_weight x + string_weight (VArray more))%nat.
Proof. reflexivity. Qed.

Lemma string_weight_object_cons (k : jsstring) (x : value)
    (more : list (jsstring * value)) :
  string_weight (VObject ((k, x) :: more))
  = (string_weight x + string_weight (VObject more))%nat.
Proof. reflexivity. Qed.

Lemma string_weight_array_app (a b : list value) :
  string_weight (VArray (a ++ b))
  = (string_weight (VArray a) + string_weight (VArray b))%nat.
Proof.
  induction a as [|x a IH]; [reflexivity|].
  rewrite <- app_comm_cons, !string_weight_array_cons, IH. lia.
Qed.

Lemma string_weight_array_rev (l : list value) :
  string_weight (VArray (rev l)) = string_weight (VArray l).
Proof.
  induction l as [|x l IH]; [reflexivity|].
  cbn [rev]. rewrite string_weight_array_app, IH, !string_weight_array_cons.
  change (string_weight (VArray [])) with 0%nat. lia.
Qed.

Lemma string_weight_define (key : jsstring) (v : value)
    (props : list (jsstring * value)) :
  (string_weight (VObject (define key v props))
   <= string_weight (VObject props) + string_weight v)%nat.
Proof.
  induction props as [|[k old] more IH]; cbn [define].
  - rewrite string_weight_object_cons. lia.
  - destruct (str_eqb k key); rewrite !string_weight_object_cons; lia.
Qed.

Lemma string_weight_lookup (key : jsstring) (props : list (jsstring * value))
    (x : value) :
  lookup key props = Some x ->
  (string_weight x <= string_weight (VObject props))%nat.
Proof.
  induction props as [|[k old] more IH]; cbn [lookup]; [discriminate|].
  rewrite string_weight_object_cons.
  destruct (str_eqb k key).
  - intros [= ->]. lia.
  - intros Hx. apply IH in Hx. lia.
Qed.

(** A decoded string and what follows it are shorter than the text they
    were read from. *)
Lemma string_body_weight (s str rest : jsstring) :
  JSON.string_body s = Some (str, rest) ->
  (List.length str + List.length rest < List.length s)%nat.
Proof.
  remember (List.length s) as n eqn:Hn.
  revert s str rest Hn.
  induction n as [n IH] using lt_wf_ind. intros s str rest Hn Hs.
  destruct s as [|c s1]; simpl in Hs; [discriminate|].
  assert (Hstep : forall u t, (List.length t < n)%nat ->
            JSON.prepend u (JSON.string_body t) = Some (str, rest) ->
            (List.length str + List.length rest < S (List.length t))%nat).
  { intros u t Ht Hp. unfold JSON.prepend in Hp.
    destruct (JSON.string_body t) as [[str' rest']|] eqn:Et; [|discriminate].
    injection Hp as <- <-.
    pose proof (IH _ Ht t str' rest' eq_refl Et). simpl. lia. }
  simpl in Hn. subst n.
  destruct (c =? 34).
  { injection Hs as <- <-. simpl. lia. }
  destruct (c =? 92).
  - destruct s1 as [|e s2]; [discriminate|].
    destruct (e =? 117).
    + destruct s2 as [|h1 [|h2 [|h3 [|h4 s3]]]]; try discriminate.
      destruct (JSON.hex_digit h1); [|discriminate].
      destruct (JSON.hex_digit h2); [|discriminate].
      destruct (JSON.hex_digit h3); [|discriminate].
      destruct (JSON.hex_digit h4); [|discriminate].
      apply Hstep in Hs; simpl in *; lia.
    + destruct (JSON.escape e); [|discriminate].
      apply Hstep in Hs; simpl in *; lia.
  - destruct (c <? 32); [discriminate|].
    apply Hstep in Hs; simpl in *; lia.
Qed.

(** Whatever the fuel, the strings of a parsed value and the text left
    after it fit in the text it was read from. *)
Lemma parsers_weigh (fuel : nat) :
  (forall s v rest, JSON.value_at fuel s = JSON.Parsed v rest ->
     (string_weight v + List.length rest <= List.length s)%nat)
  /\ (forall s acc v rest, JSON.elements fuel s acc = JSON.Parsed v rest ->
        (string_weight v + List.length rest
         <= string_weight (VArray acc) + List.length s)%nat)
  /\ (forall s acc v rest, JSON.members fuel s acc = JSON.Parsed v rest ->
        (string_weight v + List.length rest
         <= string_weight (VObject acc) + List.length s)%nat).
Proof.
  induction fuel as [|fuel (IHv & IHe & IHm)];
    [repeat split; intros; discriminate|].
  split; [|split].
  - intros s v rest Hs.
    pose proof (proj1 (parsers_consume (S fuel)) _ _ _ Hs) as Hlt.
    cbn [JSON.value_at] in Hs.
    destruct s as [|c r]; [discriminate|].
    destruct (c =? 91).
    { pose proof (skip_ws_length r) as Hws.
      destruct (JSON.skip_ws r) as [|c' r'] eqn:Er; [discriminate|].
      destruct (c' =? 93).
      - injection Hs as <- <-. simpl in *. lia.
      - apply IHe in Hs. change (string_weight (VArray [])) with 0%nat in Hs.
        simpl in *. lia. }
    destruct (c =? 123).
    { pose proof (skip_ws_length r) as Hws.
      destruct (JSON.skip_ws r) as [|c' r'] eqn:Er; [discriminate|].
      destruct (c' =? 125).
      - injection Hs as <- <-. simpl in *. lia.
      - apply IHm in Hs. change (string_weight (VObject [])) with 0%nat in Hs.
        simpl in *. lia. }
    destruct (c =? 34).
    { destruct (JSON.string_body r) as [[str r']|] eqn:Eb; [|discriminate].
      injection Hs as <- <-. apply string_body_weight in Eb.
      cbn [string_weight]. unfold str_length. simpl. lia. }
    destruct (starts_with (lit "true") (c :: r));
      [injection Hs as <- _; cbn [string_weight]; lia|].
    destruct (starts_with (lit "false") (c :: r));
      [injection Hs as <- _; cbn [string_weight]; lia|].
    destruct (starts_with (lit "null") (c :: r));
      [injection Hs as <- _; cbn [string_weight]; lia|].
    destruct (JSON.number_literal (c :: r)) as [[n r']|]; [|discriminate].
    injection Hs as <- _. cbn [string_weight]. lia.
  - intros s acc v rest Hs. cbn [JSON.elements] in Hs.
    destruct (JSON.value_at fuel s) as [x r| |] eqn:Ev; try discriminate.
    apply IHv in Ev.
    pose proof (skip_ws_length r) as Hws.
    destruct (JSON.skip_ws r) as [|c r'] eqn:Er; [discriminate|].
    destruct (c =? 44).
    + apply IHe in Hs. rewrite string_weight_array_cons in Hs.
      pose proof (skip_ws_length r'). simpl in *. lia.
    + destruct (c =? 93); [|discriminate].
      injection Hs as <- <-.
      assert (Hrev : string_weight (VArray (rev (x :: acc)))
                     = (string_weight x + string_weight (VArray acc))%nat)
        by (rewrite string_weight_array_rev; apply string_weight_array_cons).
      cbn [rev] in Hrev. rewrite Hrev. simpl in *. lia.
  - intros s acc v rest Hs. cbn [JSON.members] in Hs.
    destruct s as [|c r]; [discriminate|].
    destruct (c =? 34); [|discriminate].
    destruct (JSON.string_body r) as [[key r1]|] eqn:Eb; [|discriminate].
    apply string_body_length in Eb.
    pose proof (skip_ws_length r1) as Hws1.
    destruct (JSON.skip_ws r1) as [|c1 r2]; [discriminate|].
    destruct (c1 =? 58); [|discriminate].
    destruct (JSON.value_at fuel (JSON.skip_ws r2)) as [x r3| |] eqn:Ev;
      try discriminate.
    apply IHv in Ev.
    pose proof (skip_ws_length r2) as Hws2.
    pose proof (skip_ws_length r3) as Hws3.
    pose proof (string_weight_define key x acc) as Hdef.
    destruct (JSON.skip_ws r3) as [|c2 r4]; [discriminate|].
    destruct (c2 =? 44).
    + apply IHm in Hs. pose proof (skip_ws_length r4). simpl in *. lia.
    + destruct (c2 =? 125); [|discriminate].
      injection Hs as <- <-. simpl in *. lia.
Qed.

(** The strings of what [JSON.parse] returns fit in the text. *)
Lemma parse_weight (text : jsstring) (v : value) :
  JSON.parse text = inr v -> (string_weight v <= List.length text)%nat.
Proof.
  unfold JSON.parse. intros Hp.
  destruct (JSON.value_at (JSON.fuel_for text) (JSON.skip_ws text))
    as [x rest| |] eqn:Ev; try discriminate.
  destruct (JSON.skip_ws rest); [|discriminate].
  injection Hp as ->.
  apply (proj1 (parsers_weigh _)) in Ev.
  pose proof (skip_ws_length text). lia.
Qed.

(** The content of a parsed body is no longer than the text of the
    body. *)
Lemma parsed_content_length (text : jsstring) (req_body : value)
    (content : jsstring) :
  JSON.parse text = inr req_body ->
  property req_body (lit "content") = VString content ->
  (str_length content <= List.length text)%nat.
Proof.
  intros Hparse Hcontent.
  apply string_property_of_object in Hcontent as (props & -> & Hlookup);
    [|reflexivity|reflexivity].
  apply parse_weight in Hparse. apply string_weight_lookup in Hlookup.
  change (string_weight (VString content)) with (str_length content) in Hlookup.
  lia.
Qed.

(** ** The handler on the body of the request *)

Section HandlerOnBody.
Context `{Engine}.
Variable GROQ_API_KEY : option jsstring.

(** On a body whose properties can be read, the two reads of [req.body]
    give the handler the fields of the body. *)
Lemma api_ai_handler_on_fields (req_body : value) :
  is_nullish req_body = false ->
  api_ai_handler GROQ_API_KEY req_body
  = post_api_ai GROQ_API_KEY (property req_body (lit "task"))
                             (property req_body (lit "content")).
Proof. destruct req_body; try discriminate; reflexivity. Qed.


(** Up to Express 4 the handler always finds a body to read. *)
Lemma express4_body (request : request_body) (req_body : value) :
  express_json Express4 request = inr req_body -> is_nullish req_body = false.
Proof.
  destruct request as [|err|text wide].
  - intros [= <-]. reflexivity.
  - discriminate.
  - apply express_json_body.
Qed.

(** From Express 5 on, only a request without JSON body leaves the handler
    without one. *)
Lemma express_json_no_body (version : express) (request : request_body)
    (req_body : value) :
  express_json version request = inr req_body -> is_nullish req_body = true ->
  version = Express5 /\ request = NoJsonBody /\ req_body = VUndefined.
Proof.
  intros Hbody Hnull. destruct request as [|err|text wide].
  - destruct version; injection Hbody as <-; [discriminate Hnull|auto].
  - discriminate.
  - apply express_json_body in Hbody. congruence.
Qed.

(** What the body parser refuses is answered by the error handler. *)
Lemma serve_refused (version : express) (request : request_body) (err : exn)
    (w : world) (h : history) :
  express_json version request = inl err ->
  run w h (serve_post_api_ai GROQ_API_KEY version request)
  = (inr (Some (failure 500 internal_error_message)),
     {| requests := requests h;
        console := console h
                   ++ [ (Stderr, [ VString (lit "Server Error:");
                                   VString (exn_message err) ]) ];
        clock_reads := clock_reads h |}).
Proof. intros Hbody. unfold serve_post_api_ai. rewrite Hbody. reflexivity. Qed.

(** A body the handler can read is answered by the handler, on the fields
    of the body. *)
Lemma serve_handled (version : express) (request : request_body)
    (req_body : value) (w : world) (h : history) :
  express_json version request = inr req_body ->
  is_nullish req_body = false ->
  exists response,
    run w h (serve_post_api_ai GROQ_API_KEY version request)
    = (inr (Some response),
       snd (run w h (post_api_ai GROQ_API_KEY
                       (property req_body (lit "task"))
                       (property req_body (lit "content")))))
    /\ fst (run w h (post_api_ai GROQ_API_KEY
                       (property req_body (lit "task"))
                       (property req_body (lit "content"))))
       = inr response
    /\ is_answer (property req_body (lit "task")) response.
Proof.
  intros Hbody Hnull.
  destruct (post_api_ai_always_answers GROQ_API_KEY
              (property req_body (lit "task"))
              (property req_body (lit "content")) w h)
    as (response & Hrun & Hanswer).
  exists response. split; [|split; assumption].
  unfold serve_post_api_ai. rewrite Hbody.
  rewrite api_ai_handler_on_fields by exact Hnull.
  rewrite run_try_catch, run_bind.
  destruct (run w h (post_api_ai GROQ_API_KEY
                       (property req_body (lit "task"))
                       (property req_body (lit "content"))))
    as [outcome h'].
  cbn [fst] in Hrun. subst outcome. reflexivity.
Qed.

(** A request without body under Express 5: the handler throws, and the
    error handler answers. *)
Lemma serve_without_body (w : world) (h : history) :
  fst (run w h (serve_post_api_ai GROQ_API_KEY Express5 NoJsonBody))
  = inr (Some (failure 500 internal_error_message))
  /\ requests (snd (run w h (serve_post_api_ai GROQ_API_KEY Express5 NoJsonBody)))
     = requests h.
Proof. split; reflexivity. Qed.

(** With a task outside the four names the handler answers 400 or 500. *)
Lemma post_api_ai_unknown_task_ends (task content : value) :
  is_task_name task = false ->
  ends (fun response => status response = 400%Z \/ status response = 500%Z)
       (fun _ => False)
       (post_api_ai GROQ_API_KEY task content).
Proof.
  intros Hk. unfold post_api_ai.
  apply (ends_try_catch _ (fun _ => True)).
  2:{ intros e _ now. right. reflexivity. }
  destruct (negb (ToBoolean task) || negb (ToBoolean content));
    [left; reflexivity|].
  destruct (configured_key GROQ_API_KEY) as [apiKey|]; [|right; reflexivity].
  eapply ends_bind; [apply ends_anyhow|]. intros length _.
  eapply ends_bind; [apply ends_anyhow|]. intros [|] _; [left; reflexivity|].
  eapply ends_bind; [apply ends_anyhow|]. intros now _.
  eapply ends_bind; [apply ends_anyhow|]. intros shown_task _.
  eapply ends_bind; [apply ends_anyhow|]. intros length' _.
  eapply ends_bind; [apply ends_anyhow|]. intros shown_length _.
  eapply ends_bind; [apply ends_anyhow|]. intros _ _.
  rewrite dispatch_unknown_task by exact Hk.
  eapply (ends_bind (fun routed => exists response : http_response,
                         routed = inl response /\ status response = 400%Z)).
  - eapply ends_bind; [apply ends_anyhow|]. intros shown _.
    eexists. split; reflexivity.
  - intros routed (response & -> & Hstatus). left. exact Hstatus.
Qed.

End HandlerOnBody.

(** ** Sample bodies *)

Lemma string_body_plain (s rest : jsstring) :
  plain s = true -> JSON.string_body (s ++ 34 :: rest) = Some (s, rest).
Proof.
  induction s as [|c s IH]; [reflexivity|].
  cbn [plain forallb]. intros Hs.
  apply andb_true_iff in Hs as [Hc Hs].
  apply andb_true_iff in Hc as [Hc H92].
  apply andb_true_iff in Hc as [H32 H34].
  apply negb_true_iff in H34, H92. apply N.leb_le in H32.
  assert (Hlt : (c <? 32) = false) by (apply N.ltb_ge; exact H32).
  cbn [app JSON.string_body]. rewrite H34, H92, Hlt.
  fold (plain s) in Hs. rewrite (IH Hs). reflexivity.
Qed.

(** [JSON.parse] reads the body [{"task":task,"content":content}] back. *)
Lemma parse_json_request (task content : jsstring) :
  plain task = true -> plain content = true ->
  JSON.parse (json_request task content)
  = inr (VObject [ (lit "task", VString task);
                   (lit "content", VString content) ]).
Proof.
  intros Htask Hcontent.
  assert (Htext : json_request task content
                  = 123 :: 34 :: lit "task"
                    ++ 34 :: 58 :: 34 :: task
                    ++ 34 :: 44 :: 34 :: lit "content"
                    ++ 34 :: 58 :: 34 :: content ++ [34; 125]).
  { unfold json_request.
    change (qlit "{'task':'") with (123 :: 34 :: lit "task" ++ [34; 58; 34]).
    change (qlit "','content':'")
      with (34 :: 44 :: 34 :: lit "content" ++ [34; 58; 34]).
    change (qlit "'}") with [34; 125].
    repeat (rewrite <- ?app_assoc, <- ?app_comm_cons; cbn [app]).
    reflexivity. }
  unfold JSON.parse.
  assert (Hfuel : exists n, JSON.fuel_for (json_request task content)
                            = S (S (S (S (S n))))).
  { exists (2 * List.length (json_request task content) - 4)%nat.
    unfold JSON.fuel_for. rewrite Htext. cbn [List.length]. lia. }
  destruct Hfuel as [n ->]. rewrite Htext.
  cbn [JSON.skip_ws JSON.is_ws N.eqb Pos.eqb orb].
  cbn [JSON.value_at N.eqb Pos.eqb].
  cbn [JSON.skip_ws JSON.is_ws N.eqb Pos.eqb orb].
  cbn [JSON.members N.eqb Pos.eqb].
  rewrite (string_body_plain (lit "task")) by reflexivity.
  cbn [JSON.skip_ws JSON.is_ws N.eqb Pos.eqb orb].
  cbn [JSON.value_at N.eqb Pos.eqb].
  rewrite (string_body_plain task) by exact Htask.
  cbn [JSON.skip_ws JSON.is_ws N.eqb Pos.eqb orb].
  cbn [JSON.members N.eqb Pos.eqb].
  rewrite (string_body_plain (lit "content")) by reflexivity.
  cbn [JSON.skip_ws JSON.is_ws N.eqb Pos.eqb orb].
  cbn [JSON.value_at N.eqb Pos.eqb].
  rewrite (string_body_plain content) by exact Hcontent.
  cbn [JSON.skip_ws JSON.is_ws N.eqb Pos.eqb orb].
  reflexivity.
Qed.

(** ** Requests the server turns away *)

(** A body one byte over the limit is answered by the error handler; at
    the limit it reaches the handler. *)
Example body_over_the_limit :
  let text := json_request (lit "summarize") (lit "hello") in
  let room := body_limit - N.of_nat (str_length text) in
  fst (run offline quiet
         (@serve_post_api_ai sample_engine (Some (lit "gsk_live")) Express4
            (JsonBody text (room + 1))))
  = inr (Some (failure 500 internal_error_message))
  /\ List.length
       (requests (snd (run offline quiet
                         (@serve_post_api_ai sample_engine (Some (lit "gsk_live"))
                            Express4 (JsonBody text room)))))
     = 1%nat.
Proof. split; vm_compute; reflexivity. Qed.

(** A body that is not JSON, and one that is JSON but neither object nor
    array, are answered by the error handler. *)
Example body_refused_by_the_parser :
  fst (run offline quiet
         (@serve_post_api_ai sample_engine (Some (lit "gsk_live")) Express5
            (JsonBody (lit "{task: summarize}") 0)))
  = inr (Some (failure 500 internal_error_message))
  /\ fst (run offline quiet
            (@serve_post_api_ai sample_engine (Some (lit "gsk_live")) Express5
               (JsonBody (lit "null") 0)))
     = inr (Some (failure 500 internal_error_message)).
Proof. split; vm_compute; reflexivity. Qed.

(** C3, as stated, fails: with no key configured, a request for a summary
    of 50,001 characters is answered 500, not 400, by the handler, and so
    by the server for the body that carries it. *)
Lemma C3_counterexample :
  N.of_nat (str_length long_content) = 50001
  /\ run offline quiet
       (@post_api_ai sample_engine None
          (VString (lit "summarize")) (VString long_content))
     = (inr (failure 500 not_configured_message), quiet)
  /\ run offline quiet
       (@serve_post_api_ai sample_engine None Express5
          (JsonBody (json_request (lit "summarize") long_content) 0))
     = (inr (Some (failure 500 not_configured_message)), quiet).
Proof.
  split; [vm_compute; reflexivity|]. split; [vm_compute; reflexivity|].
  assert (Hparse : JSON.parse (json_request (lit "summarize") long_content)
                   = inr (VObject [ (lit "task", VString (lit "summarize"));
                                    (lit "content", VString long_content) ]))
    by (apply parse_json_request; vm_compute; reflexivity).
  pose proof (express_json_object Express5 _ 0 _ Hparse) as Hbody.
  assert (Hsize : (body_limit
                   <? body_bytes (json_request (lit "summarize") long_content) 0)
                  = false) by (vm_compute; reflexivity).
  rewrite Hsize in Hbody.
  destruct (@serve_handled sample_engine None Express5 _ _ offline quiet
              Hbody eq_refl) as (response & Hrun & Hanswer & _).
  rewrite Hrun. clear Hrun.
  assert (Hhandler :
            run offline quiet
              (@post_api_ai sample_engine None
                 (property (VObject [ (lit "task", VString (lit "summarize"));
                                      (lit "content", VString long_content) ])
                    (lit "task"))
                 (property (VObject [ (lit "task", VString (lit "summarize"));
                                      (lit "content", VString long_content) ])
                    (lit "content")))
            = (inr (failure 500 not_configured_message), quiet))
    by (vm_compute; reflexivity).
  rewrite Hhandler in Hanswer |- *. cbn [fst snd] in *.
  injection Hanswer as <-. reflexivity.
Qed.

(** C3, amended.  A request in whose JSON body the content is a string of
    more than 50,000 characters never reaches the upstream service.  A
    body of more than 10 MiB (10,485,760 bytes) does not reach the handler:
    the body parser refuses it and the error handler answers 500
    ([Internal server error]); every content of more than 10,485,760
    characters is in such a body.  Otherwise the handler answers, and
    leaves no trace: 400 (missing fields) when the task is falsy, 500
    (service not configured) when the task is present and the key is
    unset, empty or the placeholder, and 400 (content too large) in the
    remaining case. *)
Theorem C3_oversized_content `{Engine} (GROQ_API_KEY : option jsstring)
    (version : express) (text : jsstring) (wide : N) (req_body : value)
    (content : jsstring) (w : world) (h : history) :
  JSON.parse text = inr req_body ->
  property req_body (lit "content") = VString content ->
  (50000 < Z.of_nat (str_length content))%Z ->
  let outcome :=
    run w h (serve_post_api_ai GROQ_API_KEY version (JsonBody text wide)) in
  requests (snd outcome) = requests h
  /\ fst outcome
     = inr (Some (if body_limit <? body_bytes text wide
                  then failure 500 internal_error_message
                  else if negb (ToBoolean (property req_body (lit "task")))
                       then failure 400 missing_fields_message
                       else match configured_key GROQ_API_KEY with
                            | None => failure 500 not_configured_message
                            | Some _ => failure 400 too_large_message
                            end))
  /\ ((body_limit <? body_bytes text wide) = false -> snd outcome = h)
  /\ (body_limit < N.of_nat (str_length content) ->
      (body_limit <? body_bytes text wide) = true).
Proof.
  intros Hparse Hcontent Hlong outcome. subst outcome.
  pose proof (parsed_content_length _ _ _ Hparse Hcontent) as Hfits.
  destruct (string_property_of_object req_body (lit "content") content
              eq_refl eq_refl Hcontent) as (props & -> & _).
  pose proof (express_json_object version text wide props Hparse) as Hbody.
  assert (Hbig : body_limit < N.of_nat (str_length content) ->
                 (body_limit <? body_bytes text wide) = true).
  { intros Hover. apply N.ltb_lt. unfold body_bytes, str_length in *. lia. }
  destruct (body_limit <? body_bytes text wide) eqn:Hsize.
  - rewrite (serve_refused GROQ_API_KEY _ _ _ w h Hbody). cbn [fst snd requests].
    split; [reflexivity|]. split; [reflexivity|].
    split; [discriminate|reflexivity].
  - destruct (serve_handled GROQ_API_KEY _ _ _ w h Hbody eq_refl)
      as (response & Hrun & Hanswer & _).
    rewrite Hrun. clear Hrun. rewrite Hcontent in Hanswer |- *.
    rewrite (post_api_ai_long_content GROQ_API_KEY _ content w h Hlong)
      in Hanswer |- *.
    cbn [fst snd] in *. injection Hanswer as <-.
    split; [reflexivity|]. split; [reflexivity|].
    split; [reflexivity|exact Hbig].
Qed.

Lemma C3_oversized_content_witness :
  let outcome :=
    run offline quiet
      (@serve_post_api_ai sample_engine (Some (lit "gsk_live")) Express5
         (JsonBody (json_request (lit "summarize") long_content) 0)) in
  fst outcome = inr (Some (failure 400 too_large_message))
  /\ snd outcome = quiet.
Proof.
  intros outcome.
  assert (Hsize : (body_limit
                   <? body_bytes (json_request (lit "summarize") long_content) 0)
                  = false) by (vm_compute; reflexivity).
  pose proof (@C3_oversized_content sample_engine (Some (lit "gsk_live"))
                Express5 (json_request (lit "summarize") long_content) 0
                (VObject [ (lit "task", VString (lit "summarize"));
                           (lit "content", VString long_content) ])
                long_content offline quiet) as Hclaim.
  destruct Hclaim as (_ & Hanswer & Htrace & _).
  - apply parse_json_request; vm_compute; reflexivity.
  - reflexivity.
  - vm_compute. reflexivity.
  - rewrite Hsize in Hanswer. split; [exact Hanswer|exact (Htrace Hsize)].
Defined.

(** C4, as stated, fails: with no key configured, a request for the
    unknown task [translate] is answered 500, not 400, by the handler, and
    so by the server for the body that carries it. *)
Lemma C4_counterexample :
  is_task_name (VString (lit "translate")) = false
  /\ run offline quiet
       (@post_api_ai sample_engine None
          (VString (lit "translate")) (VString (lit "hello")))
     = (inr (failure 500 not_configured_message), quiet)
  /\ run offline quiet
       (@serve_post_api_ai sample_engine None Express5
          (JsonBody (json_request (lit "translate") (lit "hello")) 0))
     = (inr (Some (failure 500 not_configured_message)), quiet).
Proof. repeat split; vm_compute; reflexivity. Qed.

(** C4, amended.  A request in which the handler finds a task that is none
    of [summarize], [tags], [grammar], [glossary] never reaches the
    upstream service, and is answered 400 or 500, whatever the body, the
    key and the version of Express.  When its JSON body holds a task and a
    content that are strings, it is answered by the first guard that
    applies: 500 ([Internal server error]) when the body is of more than
    10 MiB (10,485,760 bytes), 400 (missing fields) when either string is
    empty, 500 (service not configured) when the key is unset, empty or the
    placeholder, 400 (content too large) above 50,000 characters; past the
    guards it is answered 400 with the message ["Unknown task: <task>.
    Valid tasks are: summarize, tags, grammar, glossary"]. *)
Theorem C4_unknown_task `{Engine} (GROQ_API_KEY : option jsstring)
    (version : express) (request : request_body) (w : world) (h : history) :
  is_task_name (requested_task version request) = false ->
  let outcome := run w h (serve_post_api_ai GROQ_API_KEY version request) in
  requests (snd outcome) = requests h
  /\ (exists response,
        fst outcome = inr (Some response)
        /\ (status response = 400%Z \/ status response = 500%Z))
  /\ forall text wide req_body task content,
       request = JsonBody text wide ->
       JSON.parse text = inr req_body ->
       property req_body (lit "task") = VString task ->
       property req_body (lit "content") = VString content ->
       fst outcome
       = inr (Some (server_guards GROQ_API_KEY (body_bytes text wide)
                      task content
                      (failure 400 (unknown_task_message task)))).
Proof.
  intros Hk outcome. subst outcome. unfold requested_task in Hk.
  destruct (express_json version request) as [err|body] eqn:Hbody.
  - rewrite (serve_refused GROQ_API_KEY _ _ _ w h Hbody). cbn [fst snd requests].
    split; [reflexivity|]. split.
    { eexists. split; [reflexivity|]. right. reflexivity. }
    intros text wide req_body task content -> Hparse Htask Hcontent.
    destruct (string_property_of_object req_body (lit "content") content
                eq_refl eq_refl Hcontent) as (props & -> & _).
    rewrite (express_json_object version text wide props Hparse) in Hbody.
    unfold server_guards.
    destruct (body_limit <? body_bytes text wide); [reflexivity|discriminate].
  - destruct (is_nullish body) eqn:Hnull.
    + destruct (express_json_no_body _ _ _ Hbody Hnull) as (-> & -> & _).
      destruct (serve_without_body GROQ_API_KEY w h) as [Hanswer Hcalls].
      split; [exact Hcalls|]. split.
      { eexists. split; [exact Hanswer|]. right. reflexivity. }
      discriminate.
    + destruct (serve_handled GROQ_API_KEY _ _ _ w h Hbody Hnull)
        as (response & Hrun & Hanswer & _).
      rewrite Hrun. clear Hrun. cbn [fst snd]. split; [|split].
      * apply no_post_requests.
        apply post_api_ai_unknown_task_shape. exact Hk.
      * exists response. split; [reflexivity|].
        pose proof (ends_run _ _ _
                      (post_api_ai_unknown_task_ends GROQ_API_KEY _
                         (property body (lit "content")) Hk) w h) as Hend.
        rewrite Hanswer in Hend. exact Hend.
      * intros text wide req_body task content -> Hparse Htask Hcontent.
        destruct (string_property_of_object req_body (lit "content") content
                    eq_refl eq_refl Hcontent) as (props & -> & _).
        rewrite (express_json_object version text wide props Hparse) in Hbody.
        unfold server_guards.
        destruct (body_limit <? body_bytes text wide); [discriminate|].
        injection Hbody as <-.
        rewrite Htask, Hcontent in Hanswer. rewrite Htask in Hk.
        rewrite (post_api_ai_guards GROQ_API_KEY task content w h Hk)
          in Hanswer.
        injection Hanswer as <-. reflexivity.
Qed.

Lemma C4_unknown_task_witness :
  let outcome :=
    run offline quiet
      (@serve_post_api_ai sample_engine (Some (lit "gsk_live")) Express5
         (JsonBody (json_request (lit "translate") (lit "hello")) 0)) in
  requests (snd outcome) = []
  /\ fst outcome
     = inr (Some (failure 400
                    (lit "Unknown task: translate. Valid tasks are: summarize, tags, grammar, glossary"))).
Proof.
  intros outcome.
  pose proof (@C4_unknown_task sample_engine (Some (lit "gsk_live")) Express5
                (JsonBody (json_request (lit "translate") (lit "hello")) 0)
                offline quiet) as Hclaim.
  destruct Hclaim as (Hcalls & _ & Hanswer).
  - vm_compute. reflexivity.
  - split; [exact Hcalls|].
    exact (Hanswer (json_request (lit "translate") (lit "hello")) 0
             (VObject [ (lit "task", VString (lit "translate"));
                        (lit "content", VString (lit "hello")) ])
             (lit "translate") (lit "hello") eq_refl
             (parse_json_request (lit "translate") (lit "hello")
                eq_refl eq_refl)
             eq_refl eq_refl).
Defined.

(** ** The server answers *)

